(** * Real-time whiteboard: synchronisation core

    A shallow embedding of the synchronisation core of the collaborative
    whiteboard:

    - [Server]: the Socket.IO handlers of [server/socket/socketHandlers.js]
      together with the [Board] model methods they call
      ([hasAccess], [updateLastModified]);
    - [Canvas]: the element-array handlers and the undo/redo history of
      [client/src/pages/CanvasPageFixed.jsx], the page the application
      routes to; [CanvasHook]: the history of the [useCanvasState] hook;
    - [Geometry]: hit testing ([elementUtils.findElementAtPosition]) and the
      freehand pen handlers of [CanvasPageFixed.jsx];
    - [Scenario]: a concrete session on which the handlers are run;
    - [Relay], [BoardModel], [Session]: the relayed events of
      [socketHandlers.js], the collaborator methods of the [Board] model,
      and the states a server process can reach;
    - [Interaction], [HookInteraction]: the drag, resize, line and eraser
      gestures of [CanvasPageFixed.jsx] and of the canvas hook.

    JavaScript objects are finite maps from field names to values; arrays
    are lists; [Map]s are finite maps; a [Set] of user ids is a list without
    duplicates in insertion order (its iteration order is observable in the
    broadcast user lists).  Every handler is modelled as one atomic
    transition: the event loop runs it to completion, and the [await]ed
    database calls are taken to succeed. *)

From stdpp Require Import gmap strings list pretty.
From Stdlib Require Import ZArith QArith Lqa.

Local Open Scope Z_scope.

(** ** JavaScript values *)

(** The values an element field or an event argument can hold.  Numbers are
    integers here: the store handlers only copy and compare them (the pixel
    arithmetic lives in [Geometry], over rationals).  [VDate t] is a [Date]
    object for instant [t]; [VRef r] is a reference to some other object. *)
Inductive val :=
| VUndef
| VNull
| VBool (b : bool)
| VNum (n : Z)
| VStr (s : string)
| VDate (t : Z)
| VRef (r : nat).

#[global] Instance val_eq_dec : EqDecision val.
Proof. solve_decision. Defined.

(** An object: field name to value.  A missing field reads [undefined]. *)
Abbreviation obj := (gmap string val).

Definition get (o : obj) (k : string) : val := default VUndef (o !! k).

(** JavaScript truthiness ([x || y], [if (x)]). *)
Definition truthy (v : val) : bool :=
  match v with
  | VUndef | VNull => false
  | VBool b => b
  | VNum n => negb (n =? 0)
  | VStr s => negb (String.eqb s "")
  | VDate _ | VRef _ => true
  end.

(** Strict equality [===].  Primitives compare by value, object references
    by identity; a [Date] is an object that is never identical to a value
    built elsewhere. *)
Definition strict_eq (a b : val) : bool :=
  match a, b with
  | VUndef, VUndef => true
  | VNull, VNull => true
  | VBool x, VBool y => Bool.eqb x y
  | VNum x, VNum y => x =? y
  | VStr x, VStr y => String.eqb x y
  | VRef x, VRef y => Nat.eqb x y
  | _, _ => false
  end.

(** [x || y] on values. *)
Definition js_or (a b : val) : val := if truthy a then a else b.

(** [new Date().getTime().toString()] at clock reading [now]. *)
Definition time_string (now : Z) : string := pretty now.

(** ** The server: presence registry, rooms and mutation handlers *)

(** Each handler takes the state, the sending socket, the payload and the
    clock reading [now] (one reading stands for the [new Date()] calls of a
    handler), and returns the new state with the emissions in the order
    they are made.  The database is the map [boards]: [Board.findById]
    reads it, [board.save()] writes the document back as the handler built
    it (no schema casting, no validation error).  A user object is its id
    and name. *)

Module Server.

Inductive Role := owner | editor | viewer.

#[global] Instance Role_eq_dec : EqDecision Role.
Proof. solve_decision. Defined.

Record Collaborator := mkCollaborator {
  collab_user : string;
  collab_role : Role
}.

(** The fields of the [Board] document that the socket handlers read or
    write. *)
Record Board := mkBoard {
  board_owner : string;
  collaborators : list Collaborator;
  isPublic : bool;
  elements : list obj;
  version : Z;
  lastModified : Z;
  lastModifiedBy : option string;
  totalEdits : Z
}.

Record Access := mkAccess {
  access_hasAccess : bool;
  access_role : option Role
}.

(** [boardSchema.methods.hasAccess] *)
Definition hasAccess (b : Board) (userId : string) : Access :=
  if decide (board_owner b = userId) then mkAccess true (Some owner)
  else
    match List.find (λ c, bool_decide (collab_user c = userId)) (collaborators b) with
    | Some collaborator => mkAccess true (Some (collab_role collaborator))
    | None =>
        if isPublic b then mkAccess true (Some viewer)
        else mkAccess false None
    end.

Definition set_elements (b : Board) (els : list obj) : Board :=
  mkBoard (board_owner b) (collaborators b) (isPublic b) els
          (version b) (lastModified b) (lastModifiedBy b) (totalEdits b).

(** [boardSchema.methods.updateLastModified], up to the [save] that the
    caller performs with the result. *)
Definition updateLastModified (b : Board) (userId : string) (now : Z) : Board :=
  mkBoard (board_owner b) (collaborators b) (isPublic b) (elements b)
          (version b + 1) now (Some userId) (totalEdits b + 1).

Record UserInfo := mkUserInfo {
  user_id : string;
  user_name : string
}.

(** An entry of the [activeUsers] map. *)
Record UserData := mkUserData {
  socketId : string;
  user : UserInfo;
  joinedAt : Z;
  currentBoard : option string;
  role : option Role
}.

Record Socket := mkSocket {
  socket_id : string;
  socket_userId : string;
  socket_user : UserInfo
}.

(** The process state: the two module-level maps, the Socket.IO room
    membership ([socket.join] / [socket.leave]) and the board
    collection. *)
Record State := mkState {
  activeUsers : gmap string UserData;
  boardRooms : gmap string (list string);
  rooms : gmap string (gset string);
  boards : gmap string Board
}.

Definition set_activeUsers (σ : State) (m : gmap string UserData) : State :=
  mkState m (boardRooms σ) (rooms σ) (boards σ).
Definition set_boardRooms (σ : State) (m : gmap string (list string)) : State :=
  mkState (activeUsers σ) m (rooms σ) (boards σ).
Definition set_rooms (σ : State) (m : gmap string (gset string)) : State :=
  mkState (activeUsers σ) (boardRooms σ) m (boards σ).
Definition set_boards (σ : State) (m : gmap string Board) : State :=
  mkState (activeUsers σ) (boardRooms σ) (rooms σ) m.

(** [board.save()] *)
Definition save (σ : State) (boardId : string) (b : Board) : State :=
  set_boards σ (<[boardId := b]> (boards σ)).

(** Server-to-client events. *)
Inductive Event :=
| Ev_connected (u : UserInfo) (timestamp : Z)
| Ev_error (message : string)
| Ev_user_joined (u : UserInfo) (r : option Role) (joined : Z)
| Ev_board_joined (boardId : string) (r : option Role) (users : list UserData)
| Ev_active_users_updated (users : list UserData)
| Ev_user_left (userId : string) (u : option UserInfo) (timestamp : Z)
| Ev_canvas_updated (els : option (list obj)) (action : string)
    (element : option obj) (updatedBy : UserInfo) (timestamp : Z)
    (boardVersion : Z)
| Ev_canvas_update_confirmed (action : string) (element : option obj)
    (timestamp : Z)
| Ev_board_saved (savedBy : UserInfo) (elementCount : nat) (timestamp : Z)
| Ev_element_created (element : obj) (createdBy : UserInfo) (timestamp : Z)
| Ev_element_updated (element : obj) (updatedBy : UserInfo) (timestamp : Z)
| Ev_element_deleted (elementId : val) (deletedBy : UserInfo) (timestamp : Z).

(** One [emit]: the sockets it is delivered to, and the event. *)
Record Emission := mkEmission {
  to : gset string;
  event : Event
}.

Definition room (σ : State) (boardId : string) : gset string :=
  default ∅ (rooms σ !! boardId).

(** [socket.emit(ev)] *)
Definition socket_emit (socket : Socket) (ev : Event) : Emission :=
  mkEmission {[ socket_id socket ]} ev.
(** [socket.to(boardId).emit(ev)]: the room without the sender. *)
Definition socket_to (σ : State) (socket : Socket) (boardId : string)
    (ev : Event) : Emission :=
  mkEmission (room σ boardId ∖ {[ socket_id socket ]}) ev.
(** [io.to(boardId).emit(ev)]: the whole room. *)
Definition io_to (σ : State) (boardId : string) (ev : Event) : Emission :=
  mkEmission (room σ boardId) ev.

(** [socket.join] / [socket.leave] *)
Definition socket_join (σ : State) (socket : Socket) (boardId : string) : State :=
  set_rooms σ (<[boardId := {[ socket_id socket ]} ∪ room σ boardId]> (rooms σ)).
Definition socket_leave (σ : State) (socket : Socket) (boardId : string) : State :=
  set_rooms σ (<[boardId := room σ boardId ∖ {[ socket_id socket ]}]> (rooms σ)).

(** [Set.prototype.add] and [Set.prototype.delete] on an insertion-ordered
    set of user ids. *)
Definition set_add (x : string) (s : list string) : list string :=
  if decide (x ∈ s) then s else s ++ [x].
Definition set_delete (x : string) (s : list string) : list string :=
  filter (λ y, y ≠ x) s.

(** [Array.from(boardRooms.get(boardId)).map(id => activeUsers.get(id)).filter(Boolean)] *)
Definition usersInBoard (σ : State) (boardId : string) : list UserData :=
  omap (λ userId, activeUsers σ !! userId) (default [] (boardRooms σ !! boardId)).

(** [userData?.currentBoard !== boardId] is false: the entry exists and
    records this board. *)
Definition in_board (σ : State) (socket : Socket) (boardId : string)
    : option UserData :=
  match activeUsers σ !! socket_userId socket with
  | Some userData =>
      if decide (currentBoard userData = Some boardId) then Some userData
      else None
  | None => None
  end.


(** *** Presence: connection, join, leave, disconnect *)

(** [io.on('connection', ...)]: register the user, confirm to the socket. *)
Definition connection (σ : State) (socket : Socket) (now : Z)
    : State * list Emission :=
  let userData := mkUserData (socket_id socket) (socket_user socket) now None None in
  (set_activeUsers σ (<[socket_userId socket := userData]> (activeUsers σ)),
   [socket_emit socket (Ev_connected (socket_user socket) now)]).

(** [socket.on('join-board', ...)] *)
Definition join_board (σ : State) (socket : Socket) (boardId : string)
    : State * list Emission :=
  let userId := socket_userId socket in
  match boards σ !! boardId with
  | None => (σ, [socket_emit socket (Ev_error "Board not found")])
  | Some board =>
      let access := hasAccess board userId in
      if negb (access_hasAccess access) then
        (σ, [socket_emit socket (Ev_error "Access denied to board")])
      else
        (* Leave previous board room if any *)
        let σ1 :=
          match activeUsers σ !! userId ≫= currentBoard with
          | Some previous => socket_leave σ socket previous
          | None => σ
          end in
        (* Join new board room *)
        let σ2 := socket_join σ1 socket boardId in
        match activeUsers σ2 !! userId with
        | None =>
            (* [userData.currentBoard = ...] throws on [undefined] *)
            (σ2, [socket_emit socket (Ev_error "Failed to join board")])
        | Some old =>
            (* Update user's current board *)
            let userData :=
              mkUserData (socketId old) (user old) (joinedAt old)
                         (Some boardId) (access_role access) in
            let σ3 := set_activeUsers σ2 (<[userId := userData]> (activeUsers σ2)) in
            (* Add user to board room tracking *)
            let σ4 :=
              set_boardRooms σ3
                (<[boardId := set_add userId (default [] (boardRooms σ3 !! boardId))]>
                   (boardRooms σ3)) in
            let users := usersInBoard σ4 boardId in
            (σ4,
             [socket_to σ4 socket boardId
                (Ev_user_joined (user userData) (role userData) (joinedAt userData));
              socket_emit socket (Ev_board_joined boardId (access_role access) users);
              io_to σ4 boardId (Ev_active_users_updated users)])
        end
  end.

(** [handleUserLeaveBoard(socket, boardId)] *)
Definition handleUserLeaveBoard (σ : State) (socket : Socket)
    (boardId : string) (now : Z) : State * list Emission :=
  let userId := socket_userId socket in
  (* Remove from board room tracking; drop an emptied room *)
  let σ1 :=
    match boardRooms σ !! boardId with
    | Some members =>
        let members' := set_delete userId members in
        set_boardRooms σ
          (if decide (length members' = 0%nat) then delete boardId (boardRooms σ)
           else <[boardId := members']> (boardRooms σ))
    | None => σ
    end in
  (* Notify other users *)
  let left :=
    socket_to σ1 socket boardId
      (Ev_user_left userId (user <$> activeUsers σ1 !! userId) now) in
  (* Leave socket room *)
  let σ2 := socket_leave σ1 socket boardId in
  (* Update active users list for remaining users *)
  let updated :=
    match boardRooms σ2 !! boardId with
    | Some _ =>
        [socket_to σ2 socket boardId
           (Ev_active_users_updated (usersInBoard σ2 boardId))]
    | None => []
    end in
  (* Clear user's current board *)
  let σ3 :=
    match activeUsers σ2 !! userId with
    | Some old =>
        set_activeUsers σ2
          (<[userId := mkUserData (socketId old) (user old) (joinedAt old)
                                  None (role old)]> (activeUsers σ2))
    | None => σ2
    end in
  (σ3, left :: updated).

(** [socket.on('leave-board', ...)] *)
Definition leave_board (σ : State) (socket : Socket) (now : Z)
    : State * list Emission :=
  match activeUsers σ !! socket_userId socket ≫= currentBoard with
  | Some boardId => handleUserLeaveBoard σ socket boardId now
  | None => (σ, [])
  end.

(** [socket.on('disconnect', ...)].  Socket.IO has already taken the
    socket out of all its rooms when the handler runs. *)
Definition disconnect (σ : State) (socket : Socket) (now : Z)
    : State * list Emission :=
  let σ0 := set_rooms σ ((λ members, members ∖ {[ socket_id socket ]}) <$> rooms σ) in
  let '(σ1, out) :=
    match activeUsers σ0 !! socket_userId socket ≫= currentBoard with
    | Some boardId => handleUserLeaveBoard σ0 socket boardId now
    | None => (σ0, [])
    end in
  (set_activeUsers σ1 (delete (socket_userId socket) (activeUsers σ1)), out).


(** *** Canvas mutations *)

(** [{...element, id: element.id || new Date().getTime().toString(),
      createdBy: socket.userId, createdAt: new Date(), updatedAt: new Date()}] *)
Definition newElement (element : obj) (userId : string) (now : Z) : obj :=
  <["updatedAt" := VDate now]>
    (<["createdAt" := VDate now]>
       (<["createdBy" := VStr userId]>
          (<["id" := js_or (get element "id") (VStr (time_string now))]> element))).

(** [{...old, ...element, updatedAt: new Date(), lastModifiedBy: socket.userId}] *)
Definition mergedElement (old element : obj) (userId : string) (now : Z) : obj :=
  <["lastModifiedBy" := VStr userId]>
    (<["updatedAt" := VDate now]> (element ∪ old)).

(** [{...el, updatedAt: new Date(), lastModifiedBy: el.lastModifiedBy || socket.userId}] *)
Definition savedElement (userId : string) (now : Z) (el : obj) : obj :=
  <["lastModifiedBy" := js_or (get el "lastModifiedBy") (VStr userId)]>
    (<["updatedAt" := VDate now]> el).

(** [Array.prototype.findIndex]; [None] stands for [-1]. *)
Fixpoint findIndex {A} (p : A → bool) (l : list A) : option nat :=
  match l with
  | [] => None
  | x :: l' => if p x then Some 0%nat else S <$> findIndex p l'
  end.

Definition has_id (id : val) (el : obj) : bool := strict_eq (get el "id") id.

(** [board.elements.filter(el => el.id !== id)] *)
Definition remove_id (id : val) (els : list obj) : list obj :=
  List.filter (λ el, negb (has_id id el)) els.

Record CanvasUpdate := mkCanvasUpdate {
  cu_boardId : string;
  cu_elements : option (list obj);
  cu_action : string;
  cu_element : option obj
}.

(** The [if / else if] chain of the [canvas-update] handler.  [Some b] is
    the board as modified and saved; [None] means that no branch changed
    or saved anything. *)
Definition canvas_action (board : Board) (userId : string) (d : CanvasUpdate)
    (now : Z) : option Board :=
  let action := cu_action d in
  match (if String.eqb action "add" then cu_element d else None) with
  | Some element =>
      Some (updateLastModified
              (set_elements board (elements board ++ [newElement element userId now]))
              userId now)
  | None =>
  match (if String.eqb action "update" then cu_element d else None) with
  | Some element =>
      match findIndex (has_id (get element "id")) (elements board) with
      | Some elementIndex =>
          let old := default ∅ (elements board !! elementIndex) in
          Some (updateLastModified
                  (set_elements board
                     (<[elementIndex := mergedElement old element userId now]>
                        (elements board)))
                  userId now)
      | None => None
      end
  | None =>
  match (if String.eqb action "delete" then cu_element d else None) with
  | Some element =>
      Some (updateLastModified
              (set_elements board (remove_id (get element "id") (elements board)))
              userId now)
  | None =>
  match (if String.eqb action "batch" then cu_elements d else None) with
  | Some els =>
      Some (updateLastModified
              (set_elements board (savedElement userId now <$> els))
              userId now)
  | None => None
  end end end end.

Definition is_viewer (r : option Role) : bool := bool_decide (r = Some viewer).

(** [socket.on('canvas-update', ...)] *)
Definition canvas_update (σ : State) (socket : Socket) (d : CanvasUpdate)
    (now : Z) : State * list Emission :=
  let boardId := cu_boardId d in
  match in_board σ socket boardId with
  | None => (σ, [socket_emit socket (Ev_error "Not in this board")])
  | Some userData =>
  match boards σ !! boardId with
  | None => (σ, [socket_emit socket (Ev_error "Board not found")])
  | Some board =>
      let access := hasAccess board (socket_userId socket) in
      if negb (access_hasAccess access)
         || (is_viewer (access_role access)
             && negb (String.eqb (cu_action d) "cursor")) then
        (σ, [socket_emit socket (Ev_error "No edit permission for this board")])
      else
        let saved := canvas_action board (socket_userId socket) d now in
        let board' := default board saved in
        let σ' := match saved with
                  | Some b => save σ boardId b
                  | None => σ
                  end in
        (σ',
         [socket_to σ' socket boardId
            (Ev_canvas_updated
               (if String.eqb (cu_action d) "batch" then cu_elements d
                else Some (elements board'))
               (cu_action d) (cu_element d) (user userData) now (version board'));
          socket_emit socket
            (Ev_canvas_update_confirmed (cu_action d) (cu_element d) now)])
  end end.

(** The guard shared by [element-create], [element-update] and
    [element-delete]: membership, board lookup, edit permission.  The
    right side carries the entry of the sender and the loaded board. *)
Definition edit_guard (σ : State) (socket : Socket) (boardId : string)
    : Emission + (UserData * Board) :=
  match in_board σ socket boardId with
  | None => inl (socket_emit socket (Ev_error "Not in this board"))
  | Some userData =>
  match boards σ !! boardId with
  | None => inl (socket_emit socket (Ev_error "Board not found"))
  | Some board =>
      let access := hasAccess board (socket_userId socket) in
      if negb (access_hasAccess access) || is_viewer (access_role access) then
        inl (socket_emit socket (Ev_error "No edit permission"))
      else inr (userData, board)
  end end.

(** [socket.on('element-create', ...)].  A payload without [element]
    makes [element.id] throw; the [catch] reports it. *)
Definition element_create (σ : State) (socket : Socket) (boardId : string)
    (element : option obj) (now : Z) : State * list Emission :=
  match edit_guard σ socket boardId with
  | inl denied => (σ, [denied])
  | inr (userData, board) =>
      match element with
      | None => (σ, [socket_emit socket (Ev_error "Failed to create element")])
      | Some element =>
          let created := newElement element (socket_userId socket) now in
          let board' :=
            updateLastModified
              (set_elements board (elements board ++ [created]))
              (socket_userId socket) now in
          let σ' := save σ boardId board' in
          (* Broadcast to all users in board *)
          (σ', [io_to σ' boardId (Ev_element_created created (user userData) now)])
      end
  end.

(** [socket.on('element-update', ...)] *)
Definition element_update (σ : State) (socket : Socket) (boardId : string)
    (element : option obj) (now : Z) : State * list Emission :=
  match edit_guard σ socket boardId with
  | inl denied => (σ, [denied])
  | inr (userData, board) =>
      match element with
      | None =>
          (* the [findIndex] callback reads [element.id] only if there is
             an element to test *)
          match elements board with
          | [] => (σ, [socket_emit socket (Ev_error "Element not found")])
          | _ :: _ => (σ, [socket_emit socket (Ev_error "Failed to update element")])
          end
      | Some element =>
          match findIndex (has_id (get element "id")) (elements board) with
          | Some elementIndex =>
              let old := default ∅ (elements board !! elementIndex) in
              let merged := mergedElement old element (socket_userId socket) now in
              let board' :=
                updateLastModified
                  (set_elements board (<[elementIndex := merged]> (elements board)))
                  (socket_userId socket) now in
              let σ' := save σ boardId board' in
              (σ', [io_to σ' boardId (Ev_element_updated merged (user userData) now)])
          | None => (σ, [socket_emit socket (Ev_error "Element not found")])
          end
      end
  end.

(** [socket.on('element-delete', ...)] *)
Definition element_delete (σ : State) (socket : Socket) (boardId : string)
    (elementId : val) (now : Z) : State * list Emission :=
  match edit_guard σ socket boardId with
  | inl denied => (σ, [denied])
  | inr (userData, board) =>
      let elementExists := existsb (has_id elementId) (elements board) in
      if elementExists then
        let board' :=
          updateLastModified
            (set_elements board (remove_id elementId (elements board)))
            (socket_userId socket) now in
        let σ' := save σ boardId board' in
        (σ', [io_to σ' boardId (Ev_element_deleted elementId (user userData) now)])
      else (σ, [socket_emit socket (Ev_error "Element not found")])
  end.

(** [socket.on('board-save', ...)] *)
Definition board_save (σ : State) (socket : Socket) (boardId : string)
    (els : option (list obj)) (now : Z) : State * list Emission :=
  match in_board σ socket boardId with
  | None => (σ, [socket_emit socket (Ev_error "Not in this board")])
  | Some userData =>
      let σ' :=
        match els, boards σ !! boardId with
        | Some elements, Some board =>
            let access := hasAccess board (socket_userId socket) in
            if access_hasAccess access && negb (is_viewer (access_role access)) then
              save σ boardId
                (updateLastModified
                   (set_elements board
                      (savedElement (socket_userId socket) now <$> elements))
                   (socket_userId socket) now)
            else σ
        | _, _ => σ
        end in
      (σ', [socket_to σ' socket boardId
              (Ev_board_saved (user userData) (length (default [] els)) now)])
  end.


(** *** Dispatch of the mutation events *)

(** The four client-to-server events that change a board's elements, with
    their payloads. *)
Inductive Mutation :=
| canvas_update_ev (d : CanvasUpdate)
| element_create_ev (boardId : string) (element : option obj)
| element_update_ev (boardId : string) (element : option obj)
| element_delete_ev (boardId : string) (elementId : val).

Definition mutation_boardId (m : Mutation) : string :=
  match m with
  | canvas_update_ev d => cu_boardId d
  | element_create_ev boardId _ | element_update_ev boardId _
  | element_delete_ev boardId _ => boardId
  end.

(** [socket.on(name, handler)] for these four events. *)
Definition on_mutation (σ : State) (socket : Socket) (m : Mutation) (now : Z)
    : State * list Emission :=
  match m with
  | canvas_update_ev d => canvas_update σ socket d now
  | element_create_ev boardId element => element_create σ socket boardId element now
  | element_update_ev boardId element => element_update σ socket boardId element now
  | element_delete_ev boardId elementId => element_delete σ socket boardId elementId now
  end.

(** The [canvas-update] actions that persist something. *)
Definition persistent_actions : list string := ["add"; "update"; "delete"; "batch"].

Definition persistent (m : Mutation) : Prop :=
  match m with
  | canvas_update_ev d => cu_action d ∈ persistent_actions
  | _ => True
  end.

(** *** Error taxonomy (by message) *)

Definition AccessDenied (message : string) : Prop :=
  message = "No edit permission" ∨ message = "No edit permission for this board".

Definition ElementNotFound (message : string) : Prop :=
  message = "Element not found".

(** The element list stored for a board ([[]] when there is no such board). *)
Definition stored_elements (σ : State) (boardId : string) : list obj :=
  default [] (elements <$> boards σ !! boardId).

(** No element of the list carries this id. *)
Definition absent (id : val) (els : list obj) : Prop :=
  ∀ el, el ∈ els → has_id id el = false.

(** The tracked member set of a board, as [usersInBoard] reads it. *)
Definition tracked (σ : State) (boardId : string) : list string :=
  default [] (boardRooms σ !! boardId).

(** The board a user's connection is currently on, if any. *)
Definition board_of (σ : State) (userId : string) : option string :=
  activeUsers σ !! userId ≫= currentBoard.

(** The presence invariant: a board tracks exactly the users whose
    connection is currently on it. *)
Definition presence_invariant (σ : State) : Prop :=
  ∀ boardId userId, userId ∈ tracked σ boardId ↔ board_of σ userId = Some boardId.

(** The sockets that receive at least one of the emissions. *)
Definition receivers (out : list Emission) : gset string := ⋃ (to <$> out).

End Server.

(** ** The server: relayed events and the collaborator list *)

(** The remaining handlers of [socketHandlers.js]: the four ephemeral
    events ([cursor-move], [tool-change], [drawing-start], [drawing-end]),
    [permission-updated] and [user-removed].  None of them touches the
    board collection; the payload values they forward are opaque. *)

Module Relay.
Import Server.

(** The server-to-client events these handlers send. *)
Inductive Signal :=
| Sg_cursor_moved (userId : string) (u : UserInfo) (x y : val) (timestamp : Z)
| Sg_user_tool_changed (userId : string) (u : UserInfo) (tool : val)
    (timestamp : Z)
| Sg_user_drawing_start (userId : string) (u : UserInfo) (tool startPoint : val)
    (timestamp : Z)
| Sg_user_drawing_end (userId : string) (u : UserInfo) (timestamp : Z)
| Sg_permission_updated (userId newRole : val) (boardId : string)
    (updatedBy : string) (timestamp : Z)
| Sg_user_removed (userId : string) (boardId : string) (removedBy : string)
    (timestamp : Z).

Record Relayed := mkRelayed {
  relay_to : gset string;
  signal : Signal
}.

(** [socket.to(boardId).emit(...)] and [socket.emit(...)] for these
    events. *)
Definition relay_others (σ : State) (socket : Socket) (boardId : string)
    (sg : Signal) : Relayed :=
  mkRelayed (room σ boardId ∖ {[ socket_id socket ]}) sg.
Definition relay_self (socket : Socket) (sg : Signal) : Relayed :=
  mkRelayed {[ socket_id socket ]} sg.

(** [socket.on('cursor-move', ...)] *)
Definition cursor_move (σ : State) (socket : Socket) (boardId : string)
    (x y : val) (now : Z) : list Relayed :=
  match in_board σ socket boardId with
  | None => []
  | Some userData =>
      [relay_others σ socket boardId
         (Sg_cursor_moved (socket_userId socket) (user userData) x y now)]
  end.

(** [socket.on('tool-change', ...)] *)
Definition tool_change (σ : State) (socket : Socket) (boardId : string)
    (tool : val) (now : Z) : list Relayed :=
  match in_board σ socket boardId with
  | None => []
  | Some userData =>
      [relay_others σ socket boardId
         (Sg_user_tool_changed (socket_userId socket) (user userData) tool now)]
  end.

(** [socket.on('drawing-start', ...)] *)
Definition drawing_start (σ : State) (socket : Socket) (boardId : string)
    (tool startPoint : val) (now : Z) : list Relayed :=
  match in_board σ socket boardId with
  | None => []
  | Some userData =>
      [relay_others σ socket boardId
         (Sg_user_drawing_start (socket_userId socket) (user userData)
            tool startPoint now)]
  end.

(** [socket.on('drawing-end', ...)] *)
Definition drawing_end (σ : State) (socket : Socket) (boardId : string)
    (now : Z) : list Relayed :=
  match in_board σ socket boardId with
  | None => []
  | Some userData =>
      [relay_others σ socket boardId
         (Sg_user_drawing_end (socket_userId socket) (user userData) now)]
  end.

(** The four ephemeral events with their payloads. *)
Inductive Ephemeral :=
| cursor_move_ev (boardId : string) (x y : val)
| tool_change_ev (boardId : string) (tool : val)
| drawing_start_ev (boardId : string) (tool startPoint : val)
| drawing_end_ev (boardId : string).

Definition ephemeral_boardId (e : Ephemeral) : string :=
  match e with
  | cursor_move_ev boardId _ _ | tool_change_ev boardId _
  | drawing_start_ev boardId _ _ | drawing_end_ev boardId => boardId
  end.

(** [socket.on(name, handler)] for these four events. *)
Definition on_ephemeral (σ : State) (socket : Socket) (e : Ephemeral) (now : Z)
    : list Relayed :=
  match e with
  | cursor_move_ev boardId x y => cursor_move σ socket boardId x y now
  | tool_change_ev boardId tool => tool_change σ socket boardId tool now
  | drawing_start_ev boardId tool startPoint =>
      drawing_start σ socket boardId tool startPoint now
  | drawing_end_ev boardId => drawing_end σ socket boardId now
  end.

(** [socket.on('permission-updated', ...)] *)
Definition permission_updated (σ : State) (socket : Socket)
    (userId newRole : val) (boardId : string) (now : Z) : list Relayed :=
  [relay_others σ socket boardId
     (Sg_permission_updated userId newRole boardId (socket_userId socket) now)].

(** [socket.on('user-removed', ...)].  [sockets] is [io.sockets.sockets],
    the connected sockets by socket id.  The emissions of
    [handleUserLeaveBoard] (left) and the relayed [user-removed] events
    (right) are kept in the order they are made. *)
Definition user_removed (sockets : gmap string Socket) (σ : State)
    (socket : Socket) (userId boardId : string) (now : Z)
    : State * list (Emission + Relayed) :=
  let removed := Sg_user_removed userId boardId (socket_userId socket) now in
  let '(σ1, out) :=
    match activeUsers σ !! userId with
    | Some removedUserData =>
        match sockets !! socketId removedUserData with
        | Some removedUserSocket =>
            (* Notify the removed user, remove them from the board room *)
            let '(σ1, leaving) := handleUserLeaveBoard σ removedUserSocket boardId now in
            (σ1, inr (relay_self removedUserSocket removed) :: (inl <$> leaving))
        | None => (σ, [])
        end
    | None => (σ, [])
    end in
  (* Broadcast to other users in the board *)
  (σ1, out ++ [inr (relay_others σ1 socket boardId removed)]).

End Relay.

(** [boardSchema.methods.addCollaborator] and [removeCollaborator] of the
    [Board] model, called by the collaborator routes of
    [server/routes/boards.js]; up to the [save]. *)

Module BoardModel.
Import Server.

Definition set_collaborators (b : Board) (cs : list Collaborator) : Board :=
  mkBoard (board_owner b) cs (isPublic b) (elements b)
          (version b) (lastModified b) (lastModifiedBy b) (totalEdits b).

Definition is_collaborator (userId : string) (c : Collaborator) : bool :=
  bool_decide (collab_user c = userId).

(** [existingCollaborator.role = role] on the entry that [find] returned:
    the first entry of this user, updated in place. *)
Fixpoint set_role (userId : string) (r : Role) (cs : list Collaborator)
    : list Collaborator :=
  match cs with
  | [] => []
  | c :: cs' =>
      if is_collaborator userId c then mkCollaborator (collab_user c) r :: cs'
      else c :: set_role userId r cs'
  end.

Definition addCollaborator (b : Board) (userId : string) (r : Role) : Board :=
  match List.find (is_collaborator userId) (collaborators b) with
  | Some existingCollaborator =>
      (* Update existing collaborator role *)
      set_collaborators b (set_role userId r (collaborators b))
  | None =>
      (* Add new collaborator *)
      set_collaborators b (collaborators b ++ [mkCollaborator userId r])
  end.

Definition removeCollaborator (b : Board) (userId : string) : Board :=
  set_collaborators b
    (List.filter (λ c, negb (is_collaborator userId c)) (collaborators b)).

(** The users that the collaborator list names, in order. *)
Definition listed (b : Board) : list string := collab_user <$> collaborators b.

End BoardModel.

(** ** Sessions: every event a client can send *)

Module Session.
Import Server Relay.

Inductive Request :=
| Rq_connection
| Rq_join_board (boardId : string)
| Rq_leave_board
| Rq_disconnect
| Rq_mutation (m : Mutation)
| Rq_board_save (boardId : string) (els : option (list obj))
| Rq_ephemeral (e : Ephemeral)
| Rq_permission_updated (userId newRole : val) (boardId : string)
| Rq_user_removed (userId boardId : string).

(** The state after the handler of the request has run. *)
Definition handle (sockets : gmap string Socket) (σ : State) (socket : Socket)
    (rq : Request) (now : Z) : State :=
  match rq with
  | Rq_connection => (connection σ socket now).1
  | Rq_join_board boardId => (join_board σ socket boardId).1
  | Rq_leave_board => (leave_board σ socket now).1
  | Rq_disconnect => (disconnect σ socket now).1
  | Rq_mutation m => (on_mutation σ socket m now).1
  | Rq_board_save boardId els => (board_save σ socket boardId els now).1
  | Rq_ephemeral _ | Rq_permission_updated _ _ _ => σ
  | Rq_user_removed userId boardId =>
      (user_removed sockets σ socket userId boardId now).1
  end.

(** The states a server process can be in: it starts with empty presence
    maps; every step is one request of some socket, handled to completion,
    or a change of the board collection made elsewhere (the REST
    routes). *)
Inductive reachable : State → Prop :=
| reach_start boards0 : reachable (mkState ∅ ∅ ∅ boards0)
| reach_request σ sockets socket rq now :
    reachable σ → reachable (handle sockets σ socket rq now)
| reach_boards σ boards' :
    reachable σ → reachable (set_boards σ boards').

(** No tracked member set is empty or lists a user twice. *)
Definition tidy (σ : State) : Prop :=
  ∀ boardId members,
    boardRooms σ !! boardId = Some members → NoDup members ∧ members ≠ [].

(** A user whose entry records a board is tracked on that board. *)
Definition current_tracked (σ : State) : Prop :=
  ∀ userId boardId, board_of σ userId = Some boardId → userId ∈ tracked σ boardId.

(** The state in which [join-board] registers the user: the socket has
    left the room of the previous board and joined the room of this one. *)
Definition moved (σ : State) (socket : Socket) (boardId : string) : State :=
  socket_join
    match activeUsers σ !! socket_userId socket ≫= currentBoard with
    | Some previous => socket_leave σ socket previous
    | None => σ
    end socket boardId.

(** The board as a handler saves it: new elements, one more version. *)
Definition stamped (board : Board) (els : list obj) (userId : string) (now : Z)
    : Board :=
  updateLastModified (set_elements board els) userId now.

(** The access-control fields of a board. *)
Definition acl (b : Board) : string * list Collaborator * bool :=
  (board_owner b, collaborators b, isPublic b).

End Session.

(** ** The client: element array and undo/redo history *)

(** Element objects live in an object store and arrays hold references to
    them, so that copying an array ([[...els]]) and copying its objects
    ([JSON.parse(JSON.stringify(els))]) differ.  None of the handlers
    modelled here writes into an existing object: they allocate.  A state
    setter is taken to apply at once, each handler reading the current
    state. *)

Module Canvas.

(** The object store: a reference is an index, allocation appends. *)
Abbreviation heap := (list obj).
(** An array of element objects. *)
Abbreviation array := (list nat).

Definition deref (h : heap) (l : nat) : obj := default ∅ (h !! l).


(** What an array holds, object by object. *)
Definition contents (h : heap) (a : array) : list obj := deref h <$> a.

(** Every reference of the array points into the store. *)
Definition allocated (h : heap) (a : array) : Prop := Forall (λ l, (l < length h)%nat) a.

(** [JSON.parse(JSON.stringify(o))] on an element object: fields holding
    [undefined] are dropped; the other values are kept (a [Date] would come
    back as a string: the elements of this page hold none). *)
Definition json (o : obj) : obj := filter (λ kv, kv.2 ≠ VUndef) o.

(** [JSON.parse(JSON.stringify(a))]: a new array of new objects. *)
Definition deep_copy (h : heap) (a : array) : heap * array :=
  (h ++ (json <$> contents h a), seq (length h) (length a)).

(** [a.slice(0, e)]; a negative [e] counts from the end. *)
Definition slice0 {A} (e : Z) (a : list A) : list A :=
  if e <? 0 then take (length a - Z.to_nat (- e)) a else take (Z.to_nat e) a.

(** The React state of the canvas page that these handlers touch. *)
Record State := mkState {
  objects : heap;
  elements : array;
  history : list array;
  historyIndex : Z
}.

(** [useState([])], [useState(-1)] *)
Definition initial : State := mkState [] [] [] (-1).

Definition setElements (st : State) (h : heap) (els : array) : State :=
  mkState h els (history st) (historyIndex st).

(** *** [CanvasPageFixed.jsx] *)

(** [recordHistory(els)] *)
Definition recordHistory (st : State) (els : array) : State :=
  let trimmed := slice0 (historyIndex st + 1) (history st) in
  let '(h, copy) := deep_copy (objects st) els in
  let next := trimmed ++ [copy] in
  (* limit size *)
  let next := if decide (50 < length next)%nat then drop 1 next else next in
  mkState h (elements st) next (Z.min (historyIndex st + 1) 49).

(** [undo()].  [None]: the updater throws, [history[newIdx]] being
    [undefined]. *)
Definition undo (st : State) : option State :=
  let idx := historyIndex st in
  if idx <=? 0 then Some (mkState (objects st) (elements st) (history st) 0)
  else
    let newIdx := idx - 1 in
    match history st !! Z.to_nat newIdx with
    | Some snapshot =>
        let '(h, copy) := deep_copy (objects st) snapshot in
        Some (mkState h copy (history st) newIdx)
    | None => None
    end.

(** [redo()] *)
Definition redo (st : State) : option State :=
  let idx := historyIndex st in
  if idx >=? Z.of_nat (length (history st)) - 1 then Some st
  else
    let newIdx := idx + 1 in
    match (if newIdx <? 0 then None else history st !! Z.to_nat newIdx) with
    | Some snapshot =>
        let '(h, copy) := deep_copy (objects st) snapshot in
        Some (mkState h copy (history st) newIdx)
    | None => None
    end.


Definition id_of (h : heap) (l : nat) : val := get (deref h l) "id".

(** [handleElementCreate(element)] *)
Definition handleElementCreate (st : State) (element : nat) : State :=
  let prev := elements st in
  let exists_ :=
    List.find (λ el, strict_eq (id_of (objects st) el) (id_of (objects st) element)) prev in
  match exists_ with
  | Some _ => st
  | None =>
      let newElements := prev ++ [element] in
      recordHistory (setElements st (objects st) newElements) newElements
  end.



(** [prev.filter(el => el.id !== elementId)] *)
Definition without (h : heap) (elementId : val) (prev : array) : array :=
  List.filter (λ el, negb (strict_eq (id_of h el) elementId)) prev.



(** The tail shared by the local mutations ([addElement],
    [deleteElementById], the context-menu actions): the handler has built
    the objects [created] and the array [newElements], then runs
    [setElements(newElements); recordHistory(newElements)]. *)
Definition commit (st : State) (created : list obj) (newElements : array) : State :=
  recordHistory (setElements st (objects st ++ created) newElements) newElements.

(** [addElement(type)], given the element object it builds. *)
Definition addElement (st : State) (newElement : obj) : State :=
  commit st [newElement] (elements st ++ [length (objects st)]).

(** [deleteElementById(id)] *)
Definition deleteElementById (st : State) (id : val) : State :=
  commit st [] (without (objects st) id (elements st)).

(** A run of committed mutations. *)
Definition commits (st : State) (ms : list (list obj * array)) : State :=
  foldl (λ st m, commit st m.1 m.2) st ms.



(** What the canvas shows, up to the fields that hold [undefined]. *)
Definition shown (st : State) : list obj := json <$> contents (objects st) (elements st).

(** What the snapshots of the history hold, up to the same. *)
Definition views (st : State) : list (list obj) :=
  (λ snapshot, json <$> contents (objects st) snapshot) <$> history st.

(** The history refers to existing objects, the pointer addresses one of its
    snapshots, and the canvas shows that snapshot. *)
Definition synced (st : State) : Prop :=
  Forall (allocated (objects st)) (history st)
  ∧ 0 ≤ historyIndex st < Z.of_nat (length (history st))
  ∧ views st !! Z.to_nat (historyIndex st) = Some (shown st).

End Canvas.

(** *** The [useCanvasState] hook *)

Module CanvasHook.
Import Canvas.

(** [recordHistory(newElements)]: the snapshot is [[...newElements]], a new
    array of the same objects. *)
Definition recordHistory (st : State) (newElements : array) : State :=
  let newHistory := slice0 (historyIndex st + 1) (history st) ++ [newElements] in
  mkState (objects st) (elements st) newHistory (Z.of_nat (length newHistory) - 1).

(** [undo()].  [None]: spreading [undefined] throws. *)
Definition undo (st : State) : option State :=
  if historyIndex st >? 0 then
    let prevIndex := historyIndex st - 1 in
    match history st !! Z.to_nat prevIndex with
    | Some snapshot => Some (mkState (objects st) snapshot (history st) prevIndex)
    | None => None
    end
  else Some st.

(** [redo()] *)
Definition redo (st : State) : option State :=
  if historyIndex st <? Z.of_nat (length (history st)) - 1 then
    let nextIndex := historyIndex st + 1 in
    match (if nextIndex <? 0 then None else history st !! Z.to_nat nextIndex) with
    | Some snapshot => Some (mkState (objects st) snapshot (history st) nextIndex)
    | None => None
    end
  else Some st.

(** The same tail of a local mutation, with the hook's [recordHistory]. *)
Definition commit (st : State) (created : list obj) (newElements : array) : State :=
  recordHistory (setElements st (objects st ++ created) newElements) newElements.

Definition commits (st : State) (ms : list (list obj * array)) : State :=
  foldl (λ st m, commit st m.1 m.2) st ms.

(** The pointer addresses a snapshot and the canvas holds its objects. *)
Definition synced (st : State) : Prop :=
  0 ≤ historyIndex st < Z.of_nat (length (history st))
  ∧ history st !! Z.to_nat (historyIndex st) = Some (elements st).

End CanvasHook.

(** ** Geometry: hit testing and freehand strokes *)

(** Coordinates are exact rationals.  [distanceToLine] returns the square
    root of a sum of squares and is only ever compared with a constant, so
    the model carries the square of the distance and compares it with the
    square of the constant; [Math.hypot] likewise. *)

Module Geometry.
Local Open Scope Q_scope.

(** A point [{x, y}] of a freehand path. *)
Abbreviation Point := (Q * Q)%type.

Inductive ElementType := text | sticky | shape | line | arrow | pen | freehand.

(** The geometry of an element.  [x2] and [y2] are present on lines and
    arrows; [points] is the path of a freehand stroke. *)
Record Element := mkElement {
  id : Z;
  type : ElementType;
  x : Q;
  y : Q;
  width : Q;
  height : Q;
  x2 : option Q;
  y2 : option Q;
  points : list Point
}.

(** [a < b] on numbers. *)
Definition Qltb (a b : Q) : bool := negb (Qle_bool b a).

(** *** [elementUtils.js] *)

(** The square of [distanceToLine(px, py, x1, y1, x2, y2)]. *)
Definition distanceToLineSq (px py x1 y1 x2 y2 : Q) : Q :=
  let A := px - x1 in
  let B := py - y1 in
  let C := x2 - x1 in
  let D := y2 - y1 in
  let dot := A * C + B * D in
  let lenSq := C * C + D * D in
  if Qeq_bool lenSq 0 then A * A + B * B
  else
    let param := dot / lenSq in
    let '(xx, yy) :=
      if Qltb param 0 then (x1, y1)
      else if Qltb 1 param then (x2, y2)
      else (x1 + param * C, y1 + param * D) in
    let dx := px - xx in
    let dy := py - yy in
    dx * dx + dy * dy.

(** [dist < 10], on the square. *)
Definition near (distSq : Q) : bool := Qltb distSq 100.

(** The inner loop over the consecutive points of a freehand path. *)
Fixpoint near_path (px py : Q) (path : list Point) : bool :=
  match path with
  | p1 :: (p2 :: _) as rest =>
      if near (distanceToLineSq px py p1.1 p1.2 p2.1 p2.2) then true
      else near_path px py rest
  | _ => false
  end.

(** The test of one element in the loop of [findElementAtPosition].  A line
    without its second endpoint computes [NaN], which is not below 10. *)
Definition hits (px py : Q) (element : Element) : bool :=
  match type element with
  | line | arrow =>
      match x2 element, y2 element with
      | Some ex2, Some ey2 =>
          near (distanceToLineSq px py (x element) (y element) ex2 ey2)
      | _, _ => false
      end
  | freehand => near_path px py (points element)
  | _ =>
      Qle_bool (x element) px && Qle_bool px (x element + width element)
      && Qle_bool (y element) py && Qle_bool py (y element + height element)
  end.

(** [findElementAtPosition(elements, x, y)]: the array is scanned from its
    last element down to its first. *)
Definition findElementAtPosition (elements : list Element) (px py : Q)
    : option Element :=
  List.find (hits px py) (rev elements).

(** *** What a hit means *)

Definition sq_dist (p q : Point) : Q :=
  (p.1 - q.1) * (p.1 - q.1) + (p.2 - q.2) * (p.2 - q.2).

(** The point of the segment from [a] to [b] at parameter [t]. *)
Definition along (a b : Point) (t : Q) : Point :=
  (a.1 + t * (b.1 - a.1), a.2 + t * (b.2 - a.2)).

(** Some point of the segment is less than 10 away from [p]: the distance
    from [p] to the segment is below 10. *)
Definition near_segment (p a b : Point) : Prop :=
  ∃ t, 0 <= t ∧ t <= 1 ∧ sq_dist p (along a b t) < 100.



(** *** Freehand drawing in [CanvasPageFixed.jsx] *)

Inductive Tool := tool_select | tool_text | tool_sticky | tool_shape
                | tool_line | tool_arrow | tool_pen | tool_eraser.

(** A mouse event and the bounding rectangle of the drawing surface. *)
Record MouseEvent := mkMouse { clientX : Q; clientY : Q }.
Record Rect := mkRect { left : Q; top : Q }.

(** The page state the drawing handlers use. *)
Record Page := mkPage {
  elements : list Element;
  activeTool : Tool;
  drawingTempId : option Z;
  scale : Q
}.

(** The pointer in canvas coordinates. *)
Definition canvasPoint (scale : Q) (surfaceRect : Rect) (e : MouseEvent) : Point :=
  ((clientX e - left surfaceRect) / scale, (clientY e - top surfaceRect) / scale).

Definition qmin (a b : Q) : Q := if Qle_bool a b then a else b.
Definition qmax (a b : Q) : Q := if Qle_bool a b then b else a.

(** [Math.min(...xs)] and [Math.max(...xs)] of a non-empty array. *)
Definition Math_min (first : Q) (others : list Q) : Q := foldl qmin first others.
Definition Math_max (first : Q) (others : list Q) : Q := foldl qmax first others.

(** [d || 1] on a number. *)
Definition or_one (d : Q) : Q := if Qeq_bool d 0 then 1 else d.

(** [startDrawingSurface(e)] with the pen: a one-point stroke. *)
Definition startDrawingSurface (page : Page) (surfaceRect : Rect)
    (e : MouseEvent) (now : Z) : Page :=
  match activeTool page with
  | tool_pen =>
      let p := canvasPoint (scale page) surfaceRect e in
      let el := mkElement now freehand p.1 p.2 1 1 None None [p] in
      mkPage (elements page ++ [el]) (activeTool page) (Some now) (scale page)
  | tool_line | tool_arrow =>
      let p := canvasPoint (scale page) surfaceRect e in
      let type := match activeTool page with tool_line => line | _ => arrow end in
      let el := mkElement now type p.1 p.2 1 1 (Some p.1) (Some p.2) [] in
      mkPage (elements page ++ [el]) (activeTool page) (Some now) (scale page)
  | _ => page
  end.

(** The callback that [handlePenDrawing] maps over the element being
    drawn. *)
Definition extendStroke (p : Point) (el : Element) : Element :=
  match last (points el) with
  | None => el
  | Some lastPoint =>
      (* Add point only if it's far enough from the last point *)
      if Qltb (sq_dist p lastPoint) 4 then el
      else
        let newPoints := points el ++ [p] in
        (* compute bounding box *)
        let xs := fst <$> newPoints in
        let ys := snd <$> newPoints in
        match xs, ys with
        | x0 :: xs', y0 :: ys' =>
            let minX := Math_min x0 xs' in
            let minY := Math_min y0 ys' in
            let maxX := Math_max x0 xs' in
            let maxY := Math_max y0 ys' in
            mkElement (id el) (type el) minX minY
                      (or_one (maxX - minX)) (or_one (maxY - minY))
                      (x2 el) (y2 el) newPoints
        | _, _ => el
        end
  end.

(** [handlePenDrawing(e, surfaceRect)], as run by [handleMouseMove]. *)
Definition handlePenDrawing (page : Page) (surfaceRect : Rect) (e : MouseEvent)
    : Page :=
  match drawingTempId page, activeTool page with
  | Some tempId, tool_pen =>
      (* [!drawingTempId]: an id of 0 counts as none *)
      if decide (tempId = 0%Z) then page
      else
        let p := canvasPoint (scale page) surfaceRect e in
        mkPage ((λ el, if decide (id el = tempId) then extendStroke p el else el)
                  <$> elements page)
               (activeTool page) (drawingTempId page) (scale page)
  | _, _ => page
  end.

(** A whole stroke: mouse down on the first sample, mouse move on each of
    the others. *)
Definition drawStroke (page : Page) (surfaceRect : Rect) (now : Z)
    (first : MouseEvent) (moves : list MouseEvent) : Page :=
  foldl (λ page e, handlePenDrawing page surfaceRect e)
        (startDrawingSurface page surfaceRect first now) moves.


(** The element being drawn. *)
Definition drawn (page : Page) : option Element :=
  match drawingTempId page with
  | Some tempId => List.find (λ el, bool_decide (id el = tempId)) (elements page)
  | None => None
  end.




End Geometry.

(** ** Pointer gestures: drag, resize, line drawing, eraser *)

(** *** [CanvasPageFixed.jsx] *)

(** The mouse handlers of the page, over the same elements and rational
    coordinates as [Geometry].  [isResizing] and [resizeCorner] are set
    together by [startResize] and cleared together by [handleMouseUp]:
    [resizing] holds the corner while a resize is in progress. *)

Module Interaction.
Import Geometry.
Local Open Scope Q_scope.

Inductive Corner := nw | ne | sw | se.

(** [resizeCorner.includes('n')] and the like. *)
Definition includes_n (c : Corner) : bool := match c with nw | ne => true | _ => false end.
Definition includes_s (c : Corner) : bool := match c with sw | se => true | _ => false end.
Definition includes_w (c : Corner) : bool := match c with nw | sw => true | _ => false end.
Definition includes_e (c : Corner) : bool := match c with ne | se => true | _ => false end.

Record View := mkView {
  page : Page;
  selectedElement : option Element;
  isDragging : bool;
  resizing : option Corner;
  dragOffset : Point
}.

Definition set_elements (v : View) (els : list Element) : View :=
  mkView (mkPage els (activeTool (page v)) (drawingTempId (page v)) (scale (page v)))
         (selectedElement v) (isDragging v) (resizing v) (dragOffset v).

(** [{ ...el, x, y, width, height }] *)
Definition with_box (el : Element) (x y width height : Q) : Element :=
  mkElement (id el) (type el) x y width height (x2 el) (y2 el) (points el).

(** The callback that [handleElementResize] maps over the selected
    element. *)
Definition resize (scale : Q) (corner : Corner) (newX newY : Q) (el : Element)
    : Element :=
  let x := x el in
  let y := y el in
  let width := width el in
  let height := height el in
  let width := if includes_e corner then qmax (40 / scale) (newX - x) else width in
  let height := if includes_s corner then qmax (40 / scale) (newY - y) else height in
  let '(x, width) :=
    if includes_w corner then
      let diff := newX - x in
      (x + diff, qmax (40 / scale) (width - diff))
    else (x, width) in
  let '(y, height) :=
    if includes_n corner then
      let diff := newY - y in
      (y + diff, qmax (40 / scale) (height - diff))
    else (y, height) in
  with_box el x y width height.

(** [handleElementResize(e, surfaceRect)]: the new view, and whether the
    handler took the event. *)
Definition handleElementResize (v : View) (surfaceRect : Rect) (e : MouseEvent)
    : View * bool :=
  match resizing v, selectedElement v with
  | Some corner, Some selected =>
      let p := canvasPoint (scale (page v)) surfaceRect e in
      (set_elements v
         ((λ el, if decide (id el = id selected)
                 then resize (scale (page v)) corner p.1 p.2 el else el)
            <$> elements (page v)),
       true)
  | _, _ => (v, false)
  end.

(** [Math.abs] *)
Definition Math_abs (a : Q) : Q := if Qle_bool 0 a then a else - a.

(** The callback that [handleLineDrawing] maps over the element being
    drawn. *)
Definition stretch (p : Point) (el : Element) : Element :=
  mkElement (id el) (type el) (x el) (y el)
            (or_one (Math_abs (p.1 - x el))) (or_one (Math_abs (p.2 - y el)))
            (Some p.1) (Some p.2) (points el).

(** [handleLineDrawing(e, surfaceRect)] *)
Definition handleLineDrawing (v : View) (surfaceRect : Rect) (e : MouseEvent)
    : View * bool :=
  match drawingTempId (page v), activeTool (page v) with
  | Some tempId, (tool_line | tool_arrow) =>
      (* [!drawingTempId]: an id of 0 counts as none *)
      if decide (tempId = 0%Z) then (v, false)
      else
        let p := canvasPoint (scale (page v)) surfaceRect e in
        (set_elements v
           ((λ el, if decide (id el = tempId) then stretch p el else el)
              <$> elements (page v)),
         true)
  | _, _ => (v, false)
  end.

(** [handleElementDrag(e, surfaceRect)] *)
Definition handleElementDrag (v : View) (surfaceRect : Rect) (e : MouseEvent)
    : View * bool :=
  match activeTool (page v), isDragging v, selectedElement v with
  | tool_select, true, Some selected =>
      let p := canvasPoint (scale (page v)) surfaceRect e in
      let newX := p.1 - (dragOffset v).1 in
      let newY := p.2 - (dragOffset v).2 in
      (set_elements v
         ((λ el, if decide (id el = id selected)
                 then with_box el newX newY (width el) (height el) else el)
            <$> elements (page v)),
       true)
  | _, _, _ => (v, false)
  end.


(** [handlePenDrawing] takes the event: a stroke is being drawn with the
    pen. *)
Definition pen_drawing (pg : Page) : bool :=
  match drawingTempId pg, activeTool pg with
  | Some tempId, tool_pen => negb (bool_decide (tempId = 0%Z))
  | _, _ => false
  end.

(** [handleMouseMove(e)]: the first handler that takes the event. *)
Definition handleMouseMove (v : View) (surfaceRect : Rect) (e : MouseEvent) : View :=
  let '(resized, taken) := handleElementResize v surfaceRect e in
  if taken then resized
  else
    let '(stretched, taken) := handleLineDrawing v surfaceRect e in
    if taken then stretched
    else if pen_drawing (page v) then
      mkView (handlePenDrawing (page v) surfaceRect e)
             (selectedElement v) (isDragging v) (resizing v) (dragOffset v)
    else (handleElementDrag v surfaceRect e).1.

(** A line being drawn: mouse down with the line or arrow tool, then
    mouse moves. *)
Definition drawLine (v : View) (surfaceRect : Rect) (now : Z)
    (first : MouseEvent) (moves : list MouseEvent) : View :=
  foldl (λ v e, handleMouseMove v surfaceRect e)
        (mkView (startDrawingSurface (page v) surfaceRect first now)
                (selectedElement v) (isDragging v) (resizing v) (dragOffset v))
        moves.



End Interaction.

(** *** The [useCanvasEventHandlers] hook and [elementUtils.js] *)

Module HookInteraction.
Import Geometry Interaction.
Local Open Scope Q_scope.





(** The [switch (resizeCorner)] of [handleMouseMove], applied to the
    selected element. *)
Definition resize (corner : Corner) (px py : Q) (el : Element) : Element :=
  match corner with
  | nw =>
      with_box el px py (qmax 20 (width el + (x el - px)))
               (qmax 20 (height el + (y el - py)))
  | ne =>
      with_box el (x el) py (qmax 20 (px - x el))
               (qmax 20 (height el + (y el - py)))
  | sw =>
      with_box el px (y el) (qmax 20 (width el + (x el - px)))
               (qmax 20 (py - y el))
  | se =>
      with_box el (x el) (y el) (qmax 20 (px - x el)) (qmax 20 (py - y el))
  end.

(** The eraser branch of [handleMouseDown]: the new array, when an
    element is hit ([setElements], [recordHistory] and the broadcast get
    it); [None] when nothing is hit and nothing happens. *)
Definition erase (elements : list Element) (px py : Q) : option (list Element) :=
  match findElementAtPosition elements px py with
  | Some elementToDelete =>
      Some (List.filter (λ el, negb (bool_decide (id el = id elementToDelete)))
              elements)
  | None => None
  end.

End HookInteraction.

(** * A concrete session

    One board owned by Alice, with Bob as editor and Carol as viewer; the
    three connect and join the board.  Used to exercise the handlers. *)

Module Scenario.
Import Server.

Definition alice : Socket := mkSocket "socket-alice" "alice" (mkUserInfo "alice" "Alice").
Definition bob : Socket := mkSocket "socket-bob" "bob" (mkUserInfo "bob" "Bob").
Definition carol : Socket := mkSocket "socket-carol" "carol" (mkUserInfo "carol" "Carol").

Definition board0 : Board :=
  mkBoard "alice" [mkCollaborator "bob" editor; mkCollaborator "carol" viewer]
          false [] 1 0 None 0.

Definition start : State := mkState ∅ ∅ ∅ {[ "B" := board0; "C" := board0 ]}.

(** Run a list of transitions, keeping the last state. *)
Definition run (steps : list (State → State * list Emission)) (σ : State) : State :=
  foldl (λ σ step, (step σ).1) σ steps.

Definition connected : State :=
  run [λ σ, connection σ alice 1; λ σ, connection σ bob 2; λ σ, connection σ carol 3]
      start.

Definition joined : State :=
  run [λ σ, join_board σ alice "B"; λ σ, join_board σ bob "B";
       λ σ, join_board σ carol "B"] connected.

Definition sticky : obj :=
  {[ "type" := VStr "sticky"; "x" := VNum 100; "y" := VNum 100 ]}.

Definition note : obj := <["id" := VStr "n1"]> sticky.
Definition arrow : obj :=
  {[ "id" := VStr "a1"; "type" := VStr "arrow"; "x" := VNum 0; "y" := VNum 0;
     "x2" := VNum 30; "y2" := VNum 40 ]}.



(** The [element-created] payload as the server sends it: the element sits
    under [element] (object 0 here), next to [createdBy] and
    [timestamp]. *)
Definition created_payload : obj :=
  {[ "element" := VRef 0; "createdBy" := VRef 9;
     "timestamp" := VStr "2024-01-01T00:00:00.000Z" ]}.


(** A pen stroke drawn at scale 1 on an empty page: 50 samples along a
    horizontal line, one pixel apart. *)
Definition pen_page : Geometry.Page := Geometry.mkPage [] Geometry.tool_pen None 1.
Definition surface : Geometry.Rect := Geometry.mkRect 0 0.
Definition pen_down : Geometry.MouseEvent := Geometry.mkMouse 0 0.
Definition sweep : list Geometry.MouseEvent :=
  (λ i, Geometry.mkMouse (inject_Z (Z.of_nat i)) 0) <$> seq 1 49.

End Scenario.

(** * More of the session

    The board of [Scenario] with elements on it, a user without access,
    and a registry of the connected sockets. *)

Module Workshop.
Import Server.

(** Dan is connected but is neither owner nor collaborator of the
    board. *)
Definition dan : Socket := mkSocket "socket-dan" "dan" (mkUserInfo "dan" "Dan").

(** [io.sockets.sockets] while Alice, Bob and Carol are connected. *)
Definition sockets : gmap string Socket :=
  {[ "socket-alice" := Scenario.alice; "socket-bob" := Scenario.bob;
     "socket-carol" := Scenario.carol ]}.

(** The document of board B holding the note, the arrow, and a second
    element that carries the id of the note; and the state in which the
    three users are on that board. *)
Definition drawn_board : Board :=
  set_elements Scenario.board0 [Scenario.note; Scenario.arrow; Scenario.note].

Definition drawn : State := save Scenario.joined "B" drawn_board.

(** Bob's entry while he is on board B. *)
Definition bob_on_B : UserData :=
  mkUserData "socket-bob" (mkUserInfo "bob" "Bob") 2 (Some "B") (Some editor).


End Workshop.

(** * Properties of the server handlers *)

Module ServerFacts.
Import Server.

Section guards.
Context (σ : State) (socket : Socket) (boardId : string).
Context (userData : UserData) (board : Board).
Hypothesis Huser : activeUsers σ !! socket_userId socket = Some userData.
Hypothesis Hcurrent : currentBoard userData = Some boardId.
Hypothesis Hboard : boards σ !! boardId = Some board.

Lemma in_board_member : in_board σ socket boardId = Some userData.
Proof using Huser Hcurrent.
  unfold in_board. rewrite Huser. by rewrite decide_True.
Qed.

Lemma edit_guard_viewer :
  access_role (hasAccess board (socket_userId socket)) = Some viewer →
  edit_guard σ socket boardId = inl (socket_emit socket (Ev_error "No edit permission")).
Proof using Huser Hcurrent Hboard.
  intros Hrole. unfold edit_guard. rewrite in_board_member, Hboard. cbn zeta.
  rewrite Hrole. unfold is_viewer. rewrite bool_decide_eq_true_2 by done.
  by rewrite orb_true_r.
Qed.

Lemma edit_guard_editor :
  access_hasAccess (hasAccess board (socket_userId socket)) = true →
  access_role (hasAccess board (socket_userId socket)) ≠ Some viewer →
  edit_guard σ socket boardId = inr (userData, board).
Proof using Huser Hcurrent Hboard.
  intros Hacc Hrole. unfold edit_guard. rewrite in_board_member, Hboard. cbn zeta.
  rewrite Hacc. unfold is_viewer. by rewrite bool_decide_eq_false_2.
Qed.

End guards.

Lemma persistent_not_cursor (action : string) :
  action ∈ persistent_actions → String.eqb action "cursor" = false.
Proof.
  unfold persistent_actions. rewrite !elem_of_cons, elem_of_nil.
  intros [-> | [-> | [-> | [-> | Hnil]]]]; try reflexivity. destruct Hnil.
Qed.

(** C1.  A connection that is in a board's room with the [viewer] role
    cannot mutate: whichever mutation event it sends ([canvas-update] with
    action add, update, delete or batch, [element-create],
    [element-update], [element-delete]), the server state -- hence the
    board's element store -- is unchanged, and the only emission is one
    [error] event with an access-denied message, delivered to the sender's
    socket and to no other. *)
Theorem viewer_mutation_denied (σ : State) (socket : Socket) (m : Mutation)
    (now : Z) (userData : UserData) (board : Board) :
  activeUsers σ !! socket_userId socket = Some userData →
  currentBoard userData = Some (mutation_boardId m) →
  boards σ !! mutation_boardId m = Some board →
  access_role (hasAccess board (socket_userId socket)) = Some viewer →
  persistent m →
  ∃ message,
    on_mutation σ socket m now
      = (σ, [mkEmission {[ socket_id socket ]} (Ev_error message)])
    ∧ AccessDenied message
    ∧ stored_elements (on_mutation σ socket m now).1 (mutation_boardId m)
      = elements board
    ∧ receivers (on_mutation σ socket m now).2 = {[ socket_id socket ]}.
Proof.
  intros Huser Hcur Hboard Hrole Hpers.
  assert (Hstore : stored_elements σ (mutation_boardId m) = elements board).
  { unfold stored_elements. by rewrite Hboard. }
  assert (Hrecv : ∀ ev, receivers [mkEmission {[ socket_id socket ]} ev]
                        = {[ socket_id socket ]}).
  { intros ev. unfold receivers. cbn. apply union_empty_r_L. }
  destruct m as [d | b e | b e | b i]; cbn in Hcur, Hboard, Hpers, Hstore |- *.
  - exists "No edit permission for this board".
    assert (canvas_update σ socket d now
            = (σ, [mkEmission {[ socket_id socket ]}
                     (Ev_error "No edit permission for this board")])) as ->.
    { unfold canvas_update.
      rewrite (in_board_member σ socket _ userData Huser Hcur), Hboard. cbn zeta.
      rewrite Hrole, (persistent_not_cursor _ Hpers). unfold is_viewer.
      rewrite bool_decide_eq_true_2 by done. by rewrite orb_true_r. }
    repeat split; [by right | done | apply Hrecv].
  - exists "No edit permission". unfold element_create.
    rewrite (edit_guard_viewer σ socket b userData board Huser Hcur Hboard Hrole).
    repeat split; [by left | done | apply Hrecv].
  - exists "No edit permission". unfold element_update.
    rewrite (edit_guard_viewer σ socket b userData board Huser Hcur Hboard Hrole).
    repeat split; [by left | done | apply Hrecv].
  - exists "No edit permission". unfold element_delete.
    rewrite (edit_guard_viewer σ socket b userData board Huser Hcur Hboard Hrole).
    repeat split; [by left | done | apply Hrecv].
Qed.

(** The viewer of the scenario tries to create a sticky note. *)
Lemma viewer_mutation_denied_witness :
  ∃ message,
    on_mutation Scenario.joined Scenario.carol
        (element_create_ev "B" (Some Scenario.sticky)) 50
      = (Scenario.joined,
         [mkEmission {[ socket_id Scenario.carol ]} (Ev_error message)])
    ∧ AccessDenied message
    ∧ stored_elements
        (on_mutation Scenario.joined Scenario.carol
           (element_create_ev "B" (Some Scenario.sticky)) 50).1 "B"
      = elements Scenario.board0
    ∧ receivers
        (on_mutation Scenario.joined Scenario.carol
           (element_create_ev "B" (Some Scenario.sticky)) 50).2
      = {[ socket_id Scenario.carol ]}.
Proof.
  apply (viewer_mutation_denied Scenario.joined Scenario.carol
           (element_create_ev "B" (Some Scenario.sticky)) 50
           (mkUserData "socket-carol" (mkUserInfo "carol" "Carol") 3
                       (Some "B") (Some viewer))
           Scenario.board0).
  - reflexivity.
  - reflexivity.
  - reflexivity.
  - reflexivity.
  - exact I.
Defined.

(** *** Lists of elements *)

Lemma findIndex_absent (id : val) (els : list obj) :
  absent id els → findIndex (has_id id) els = None.
Proof.
  induction els as [| el els IH]; intros Habs; [done |]. cbn.
  rewrite (Habs el) by apply list_elem_of_here.
  rewrite IH; [done |]. intros el' Hel'. apply Habs. by apply list_elem_of_further.
Qed.

Lemma existsb_absent (id : val) (els : list obj) :
  absent id els → existsb (has_id id) els = false.
Proof.
  induction els as [| el els IH]; intros Habs; [done |]. cbn.
  rewrite (Habs el) by apply list_elem_of_here.
  apply IH. intros el' Hel'. apply Habs. by apply list_elem_of_further.
Qed.

Lemma remove_id_absent (id : val) (els : list obj) :
  absent id els → remove_id id els = els.
Proof.
  induction els as [| el els IH]; intros Habs; [done |]. cbn.
  rewrite (Habs el) by apply list_elem_of_here. cbn. f_equal.
  apply IH. intros el' Hel'. apply Habs. by apply list_elem_of_further.
Qed.

Lemma set_elements_same (board : Board) : set_elements board (elements board) = board.
Proof. by destruct board. Qed.

Lemma room_save (σ : State) (boardId boardId' : string) (board : Board) :
  room (save σ boardId board) boardId' = room σ boardId'.
Proof. reflexivity. Qed.

Lemma stored_elements_save (σ : State) (boardId : string) (board : Board) :
  stored_elements (save σ boardId board) boardId = elements board.
Proof. unfold stored_elements, save. cbn. by rewrite lookup_insert_eq. Qed.

(** *** Saving by a viewer *)

(** C10.  A [board-save] sent by a room member whose role is [viewer]
    persists nothing (the state is unchanged) and sends no error: its only
    emission is [board-saved], carrying the sender and the number of
    supplied elements, delivered to the room without the sender. *)
Theorem viewer_board_save (σ : State) (socket : Socket) (boardId : string)
    (els : option (list obj)) (now : Z) (userData : UserData) (board : Board) :
  activeUsers σ !! socket_userId socket = Some userData →
  currentBoard userData = Some boardId →
  boards σ !! boardId = Some board →
  access_role (hasAccess board (socket_userId socket)) = Some viewer →
  board_save σ socket boardId els now
  = (σ, [mkEmission (room σ boardId ∖ {[ socket_id socket ]})
           (Ev_board_saved (user userData) (length (default [] els)) now)]).
Proof.
  intros Huser Hcur Hboard Hrole. unfold board_save.
  rewrite (in_board_member σ socket _ userData Huser Hcur), Hboard.
  assert (Hv : is_viewer (access_role (hasAccess board (socket_userId socket))) = true).
  { unfold is_viewer. rewrite Hrole. by apply bool_decide_eq_true_2. }
  rewrite Hv, andb_false_r. by destruct els.
Qed.

(** Carol, the viewer, saves a one-element canvas: Alice and Bob are told,
    the board is untouched. *)
Lemma viewer_board_save_witness :
  board_save Scenario.joined Scenario.carol "B" (Some [Scenario.sticky]) 60
  = (Scenario.joined,
     [mkEmission (room Scenario.joined "B" ∖ {[ socket_id Scenario.carol ]})
        (Ev_board_saved (mkUserInfo "carol" "Carol") 1 60)]).
Proof.
  apply (viewer_board_save Scenario.joined Scenario.carol "B"
           (Some [Scenario.sticky]) 60
           (mkUserData "socket-carol" (mkUserInfo "carol" "Carol") 3
                       (Some "B") (Some viewer))
           Scenario.board0); reflexivity.
Defined.

(** *** Mutations that name an unknown element *)

Section unknown_id.
Context (σ : State) (socket : Socket) (boardId : string) (now : Z).
Context (userData : UserData) (board : Board).
Hypothesis Huser : activeUsers σ !! socket_userId socket = Some userData.
Hypothesis Hcurrent : currentBoard userData = Some boardId.
Hypothesis Hboard : boards σ !! boardId = Some board.
Hypothesis Haccess : access_hasAccess (hasAccess board (socket_userId socket)) = true.
Hypothesis Hrole : access_role (hasAccess board (socket_userId socket)) ≠ Some viewer.

Lemma canvas_update_editor (d : CanvasUpdate) :
  cu_boardId d = boardId →
  canvas_update σ socket d now
  = let saved := canvas_action board (socket_userId socket) d now in
    let board' := default board saved in
    let σ' := match saved with Some b => save σ boardId b | None => σ end in
    (σ',
     [mkEmission (room σ boardId ∖ {[ socket_id socket ]})
        (Ev_canvas_updated
           (if String.eqb (cu_action d) "batch" then cu_elements d
            else Some (elements board'))
           (cu_action d) (cu_element d) (user userData) now (version board'));
      mkEmission {[ socket_id socket ]}
        (Ev_canvas_update_confirmed (cu_action d) (cu_element d) now)]).
Proof using Huser Hcurrent Hboard Haccess Hrole.
  intros Hd. unfold canvas_update. rewrite Hd.
  rewrite (in_board_member σ socket _ userData Huser Hcurrent), Hboard. cbn zeta.
  rewrite Haccess. unfold is_viewer. rewrite bool_decide_eq_false_2 by done. cbn.
  by destruct (canvas_action board (socket_userId socket) d now).
Qed.

(** C3, as the handlers have it.  When the id is carried by no element of
    the board:
    - [element-update] and [element-delete] both leave the state unchanged
      and reply [error "Element not found"] to the sender only (the delete
      is not silent);
    - [canvas-update] with action [update] leaves the state unchanged and
      with action [delete] leaves the element list unchanged (the board is
      saved again, its version bumped); neither replies with an error, and
      both broadcast [canvas-updated] with the unchanged element list to
      the rest of the room and confirm to the sender. *)
Theorem unknown_element_id (element : obj) (elementId : val)
    (els : option (list obj)) :
  absent (get element "id") (elements board) →
  absent elementId (elements board) →
  element_update σ socket boardId (Some element) now
    = (σ, [mkEmission {[ socket_id socket ]} (Ev_error "Element not found")])
  ∧ element_delete σ socket boardId elementId now
    = (σ, [mkEmission {[ socket_id socket ]} (Ev_error "Element not found")])
  ∧ canvas_update σ socket (mkCanvasUpdate boardId els "update" (Some element)) now
    = (σ,
       [mkEmission (room σ boardId ∖ {[ socket_id socket ]})
          (Ev_canvas_updated (Some (elements board)) "update" (Some element)
             (user userData) now (version board));
        mkEmission {[ socket_id socket ]}
          (Ev_canvas_update_confirmed "update" (Some element) now)])
  ∧ canvas_update σ socket (mkCanvasUpdate boardId els "delete" (Some element)) now
    = (save σ boardId (updateLastModified board (socket_userId socket) now),
       [mkEmission (room σ boardId ∖ {[ socket_id socket ]})
          (Ev_canvas_updated (Some (elements board)) "delete" (Some element)
             (user userData) now (version board + 1));
        mkEmission {[ socket_id socket ]}
          (Ev_canvas_update_confirmed "delete" (Some element) now)])
  ∧ stored_elements
      (save σ boardId (updateLastModified board (socket_userId socket) now)) boardId
    = elements board.
Proof using Huser Hcurrent Hboard Haccess Hrole.
  intros Hupd Hdel.
  pose proof (edit_guard_editor σ socket boardId userData board
                Huser Hcurrent Hboard Haccess Hrole) as Hguard.
  split; [| split; [| split; [| split]]].
  - unfold element_update. rewrite Hguard. by rewrite findIndex_absent.
  - unfold element_delete. rewrite Hguard. by rewrite existsb_absent.
  - rewrite canvas_update_editor by done. unfold canvas_action. cbn.
    by rewrite findIndex_absent.
  - rewrite canvas_update_editor by done. unfold canvas_action. cbn.
    rewrite remove_id_absent by done. by rewrite set_elements_same.
  - by rewrite stored_elements_save.
Qed.

End unknown_id.

(** Bob, an editor, names an element that the empty board does not hold. *)
Lemma unknown_element_id_witness :
  element_update Scenario.joined Scenario.bob "B" (Some Scenario.sticky) 70
    = (Scenario.joined,
       [mkEmission {[ socket_id Scenario.bob ]} (Ev_error "Element not found")])
  ∧ element_delete Scenario.joined Scenario.bob "B" (VStr "e1") 70
    = (Scenario.joined,
       [mkEmission {[ socket_id Scenario.bob ]} (Ev_error "Element not found")]).
Proof.
  pose proof (unknown_element_id Scenario.joined Scenario.bob "B" 70
                (mkUserData "socket-bob" (mkUserInfo "bob" "Bob") 2
                            (Some "B") (Some editor))
                Scenario.board0 eq_refl eq_refl eq_refl eq_refl
                ltac:(discriminate) Scenario.sticky (VStr "e1") None) as H.
  destruct H as (Hu & Hd & _).
  - intros el Hel. by apply elem_of_nil in Hel.
  - intros el Hel. by apply elem_of_nil in Hel.
  - split; [exact Hu | exact Hd].
Defined.

(** The claim has the delete silent; here the sender of an [element-delete]
    for an unknown id is sent an [error] event. *)
Lemma delete_unknown_id_replies_error :
  (element_delete Scenario.joined Scenario.bob "B" (VStr "e1") 70).2
  = [mkEmission {[ "socket-bob" ]} (Ev_error "Element not found")].
Proof. reflexivity. Qed.

(** *** Adding an element *)


Section add.
Context (σ : State) (socket : Socket) (boardId : string) (now : Z).
Context (userData : UserData) (board : Board).
Hypothesis Huser : activeUsers σ !! socket_userId socket = Some userData.
Hypothesis Hcurrent : currentBoard userData = Some boardId.
Hypothesis Hboard : boards σ !! boardId = Some board.
Hypothesis Haccess : access_hasAccess (hasAccess board (socket_userId socket)) = true.
Hypothesis Hrole : access_role (hasAccess board (socket_userId socket)) ≠ Some viewer.


End add.



(** *** Presence *)

(** Leaving and disconnecting go through [handleUserLeaveBoard], which takes
    the user out of the tracked member set of the board. *)
Lemma handleUserLeaveBoard_untracks (σ : State) (socket : Socket)
    (boardId : string) (now : Z) :
  socket_userId socket ∉ tracked (handleUserLeaveBoard σ socket boardId now).1 boardId.
Proof.
  unfold handleUserLeaveBoard, tracked.
  destruct (boardRooms σ !! boardId) as [members |] eqn:Hmem;
    match goal with
    | |- context [activeUsers ?s !! ?u] => destruct (activeUsers s !! u)
    end; cbn.
  1, 2: case_decide;
    [ rewrite lookup_delete_eq; apply not_elem_of_nil
    | rewrite lookup_insert_eq; cbn; unfold set_delete;
      rewrite list_elem_of_filter; by intros [? _] ].
  all: rewrite Hmem; apply not_elem_of_nil.
Qed.

(** [join-board], whatever its outcome, touches the tracked member set of
    no board but the one that is joined: the user stays tracked on the board
    the connection comes from. *)
Lemma join_board_tracks_others (σ : State) (socket : Socket)
    (boardId other : string) :
  other ≠ boardId →
  tracked (join_board σ socket boardId).1 other = tracked σ other.
Proof.
  intros Hne. unfold join_board, tracked.
  destruct (boards σ !! boardId) as [board |]; [| done].
  destruct (negb (access_hasAccess (hasAccess board (socket_userId socket)))); [done |].
  cbv zeta.
  set (σ1 := match activeUsers σ !! socket_userId socket ≫= currentBoard with
             | Some previous => socket_leave σ socket previous
             | None => σ
             end).
  assert (Hσ1 : boardRooms σ1 = boardRooms σ ∧ activeUsers σ1 = activeUsers σ).
  { unfold σ1. by destruct (activeUsers σ !! socket_userId socket ≫= currentBoard). }
  destruct Hσ1 as [Hrooms Husers].
  change (activeUsers (socket_join σ1 socket boardId)) with (activeUsers σ1).
  destruct (activeUsers σ1 !! socket_userId socket) as [old |]; cbn.
  - rewrite lookup_insert_ne by done. by rewrite Hrooms.
  - by rewrite Hrooms.
Qed.

(** Once the three users of the scenario have joined board B, the invariant
    holds. *)
Lemma presence_after_joins : presence_invariant Scenario.joined.
Proof.
  assert (Hrooms : boardRooms Scenario.joined = {[ "B" := ["alice"; "bob"; "carol"] ]})
    by reflexivity.
  assert (Husers : activeUsers Scenario.joined
    = <["alice" := mkUserData "socket-alice" (mkUserInfo "alice" "Alice") 1
                              (Some "B") (Some owner)]>
        (<["bob" := mkUserData "socket-bob" (mkUserInfo "bob" "Bob") 2
                               (Some "B") (Some editor)]>
           (<["carol" := mkUserData "socket-carol" (mkUserInfo "carol" "Carol") 3
                                    (Some "B") (Some viewer)]> ∅)))
    by reflexivity.
  assert (Hothers : ∀ userId boardId,
            userId ∈ ["alice"; "bob"; "carol"]
            ∨ board_of Scenario.joined userId ≠ Some boardId).
  { intros userId boardId. unfold board_of. rewrite Husers.
    destruct (decide (userId = "alice")) as [-> | Ha]; [left; set_solver |].
    destruct (decide (userId = "bob")) as [-> | Hb]; [left; set_solver |].
    destruct (decide (userId = "carol")) as [-> | Hc]; [left; set_solver |].
    right. by rewrite !lookup_insert_ne, lookup_empty by done. }
  intros boardId userId. unfold tracked. rewrite Hrooms.
  destruct (decide (boardId = "B")) as [-> | Hne].
  - rewrite lookup_singleton_eq. cbn. split.
    + rewrite !elem_of_cons, elem_of_nil.
      intros [-> | [-> | [-> | Hnil]]]; try reflexivity. destruct Hnil.
    + intros Hon. by destruct (Hothers userId "B").
  - rewrite lookup_singleton_ne by done. cbn. split; [by intros ?%elem_of_nil |].
    intros Hon. destruct (Hothers userId boardId) as [Hin | Hoff]; [| done].
    rewrite !elem_of_cons, elem_of_nil in Hin.
    destruct Hin as [-> | [-> | [-> | Hnil]]]; try destruct Hnil;
      injection Hon as <-; done.
Qed.

(** C2 fails on [join-board].  Alice is on board B with Bob and Carol, the
    presence invariant holding, and joins board C.  Her socket leaves the
    Socket.IO room of B and her entry records C, yet the tracked member set
    of B still holds her: the invariant is broken, the user list computed
    for B lists her, and the next [active-users-updated] broadcast on B
    (here when Carol leaves) still names her. *)
Theorem join_board_keeps_previous_membership :
  let σ := (join_board Scenario.joined Scenario.alice "C").1 in
  presence_invariant Scenario.joined
  ∧ ¬ presence_invariant σ
  ∧ board_of σ "alice" = Some "C"
  ∧ (socket_id Scenario.alice ∉ room σ "B")
  ∧ tracked σ "B" = ["alice"; "bob"; "carol"]
  ∧ user <$> usersInBoard σ "B"
    = [mkUserInfo "alice" "Alice"; mkUserInfo "bob" "Bob"; mkUserInfo "carol" "Carol"]
  ∧ (∃ users,
       mkEmission {[ "socket-bob" ]} (Ev_active_users_updated users)
         ∈ (leave_board σ Scenario.carol 9).2
       ∧ user <$> users = [mkUserInfo "alice" "Alice"; mkUserInfo "bob" "Bob"]).
Proof.
  cbn zeta. split; [apply presence_after_joins |]. split.
  { intros Hinv. specialize (Hinv "B" "alice").
    assert (Hin : "alice" ∈ tracked (join_board Scenario.joined Scenario.alice "C").1 "B")
      by (apply list_elem_of_here).
    apply Hinv in Hin. discriminate Hin. }
  split; [reflexivity |]. split.
  { assert (room (join_board Scenario.joined Scenario.alice "C").1 "B"
            = {[ "socket-bob"; "socket-carol" ]}) as -> by (by vm_compute).
    cbn. rewrite elem_of_union, !elem_of_singleton. by intros [|]. }
  split; [reflexivity |]. split; [reflexivity |].
  eexists. split.
  - apply list_elem_of_lookup. exists 1%nat. by vm_compute.
  - reflexivity.
Qed.

End ServerFacts.

(** * Properties of the client store and history *)

Module CanvasFacts.
Import Canvas.

(** *** The object store *)

Lemma get_json (o : obj) (k : string) : get (json o) k = get o k.
Proof.
  unfold get, json. rewrite map_lookup_filter.
  destruct (o !! k) as [v |]; cbn; [| done].
  case_guard as Hv; cbn in *; [done |].
  destruct (decide (v = VUndef)) as [-> | Hne]; [done | by destruct Hv].
Qed.

Lemma json_idemp (o : obj) : json (json o) = json o.
Proof.
  unfold json. apply map_eq. intros k. rewrite !map_lookup_filter.
  destruct (o !! k) as [v |]; cbn; [| done].
  case_guard as Hv; cbn; [| done]. by rewrite option_guard_True.
Qed.

Lemma deref_app_l (h h' : heap) (l : nat) :
  (l < length h)%nat → deref (h ++ h') l = deref h l.
Proof. intros Hl. unfold deref. by rewrite lookup_app_l. Qed.

Lemma contents_app (h h' : heap) (a : array) :
  allocated h a → contents (h ++ h') a = contents h a.
Proof.
  unfold allocated, contents. induction 1 as [| l a Hl _ IH]; [done |].
  cbn. by rewrite deref_app_l, IH.
Qed.

Lemma allocated_app (h h' : heap) (a : array) :
  allocated h a → allocated (h ++ h') a.
Proof.
  unfold allocated. intros Ha. eapply Forall_impl; [exact Ha |].
  intros l Hl. cbn in *. rewrite length_app. lia.
Qed.

Lemma contents_fresh (h new : heap) :
  contents (h ++ new) (seq (length h) (length new)) = new.
Proof.
  unfold contents. apply list_eq. intros i.
  rewrite list_lookup_fmap. destruct (decide (i < length new)%nat) as [Hi | Hi].
  - rewrite lookup_seq_lt by done. cbn. unfold deref.
    rewrite lookup_app_r by lia. replace (length h + i - length h)%nat with i by lia.
    destruct (lookup_lt_is_Some_2 new i Hi) as [o Ho]. by rewrite Ho.
  - rewrite lookup_seq_ge by lia. cbn. symmetry. apply lookup_ge_None. lia.
Qed.

Lemma deep_copy_contents (h : heap) (a : array) :
  contents (deep_copy h a).1 (deep_copy h a).2 = json <$> contents h a.
Proof.
  unfold deep_copy. cbn.
  replace (length a) with (length (json <$> contents h a))
    by (unfold contents; by rewrite !length_fmap).
  apply contents_fresh.
Qed.

Lemma deep_copy_fresh (h : heap) (a : array) (l : nat) :
  l ∈ (deep_copy h a).2 →
  (length h ≤ l < length (deep_copy h a).1)%nat.
Proof.
  unfold deep_copy. cbn. rewrite elem_of_seq, length_app, length_fmap.
  unfold contents. rewrite length_fmap. lia.
Qed.


Lemma deep_copy_extends (h : heap) (a : array) :
  take (length h) (deep_copy h a).1 = h.
Proof. unfold deep_copy. cbn. by rewrite take_app_length. Qed.


(** *** Recording a snapshot *)




(** *** Inbound element events *)









(** The handlers read the id off the object they are called with.  The
    server sends [element-created] as [{element, createdBy, timestamp}]; an
    object of that shape has no id of its own, is not recognised as the
    note it carries, and joins the array. *)
Remark wrapped_payload_appended :
  elements (handleElementCreate
              (mkState [Scenario.note; Scenario.created_payload] [0%nat] [] (-1)) 1)
  = [0%nat; 1%nat].
Proof. reflexivity. Qed.

(** *** Undo and redo *)

Lemma json_fmap_idemp (l : list obj) : json <$> (json <$> l) = json <$> l.
Proof. rewrite <- list_fmap_compose. apply list_fmap_ext. intros _ o _. apply json_idemp. Qed.

Lemma views_extend (h' : heap) (st : State) (els : array) (idx : Z) :
  Forall (allocated (objects st)) (history st) →
  views (mkState (objects st ++ h') els (history st) idx) = views st.
Proof.
  intros Hall. unfold views. cbn. apply list_eq_Forall2.
  apply Forall2_fmap, Forall_Forall2_diag.
  eapply Forall_impl; [exact Hall |]. intros snapshot Hs. cbn.
  by rewrite contents_app.
Qed.

Lemma history_extend (h' : heap) (st : State) :
  Forall (allocated (objects st)) (history st) →
  Forall (allocated (objects st ++ h')) (history st).
Proof.
  intros Hall. eapply Forall_impl; [exact Hall |]. intros a Ha. by apply allocated_app.
Qed.




Lemma undo_at_first (st : State) : historyIndex st = 0 → undo st = Some st.
Proof. destruct st as [h els hist idx]. cbn. intros ->. reflexivity. Qed.

Lemma redo_at_last (st : State) :
  historyIndex st = Z.of_nat (length (history st)) - 1 → redo st = Some st.
Proof.
  intros Hidx. unfold redo. by rewrite (proj2 (Z.geb_le _ _)) by lia.
Qed.

(** Moving the pointer to [target] and showing a copy of that snapshot. *)
Lemma restore_synced (st : State) (target : Z) (snapshot : array) :
  synced st →
  0 ≤ target < Z.of_nat (length (history st)) →
  history st !! Z.to_nat target = Some snapshot →
  let st' := mkState (deep_copy (objects st) snapshot).1
                     (deep_copy (objects st) snapshot).2 (history st) target in
  synced st' ∧ views st' = views st.
Proof.
  intros (Hall & Hidx & Hshown) Htarget Hsnap. cbn zeta.
  assert (Hviews : views (mkState (deep_copy (objects st) snapshot).1
                            (deep_copy (objects st) snapshot).2 (history st) target)
                   = views st).
  { unfold deep_copy. cbn [fst snd]. by apply views_extend. }
  split; [| exact Hviews]. split; [| split].
  - cbn [objects history]. unfold deep_copy. cbn [fst]. by apply history_extend.
  - done.
  - rewrite Hviews. cbn [historyIndex]. unfold shown. cbn [objects elements].
    rewrite deep_copy_contents, json_fmap_idemp. unfold views.
    rewrite list_lookup_fmap, Hsnap. done.
Qed.

Lemma undo_synced (st : State) :
  synced st →
  ∃ st', undo st = Some st' ∧ synced st' ∧ history st' = history st
         ∧ views st' = views st
         ∧ historyIndex st' = Z.max (historyIndex st - 1) 0.
Proof.
  intros Hs. pose proof Hs as (Hall & Hidx & Hshown).
  destruct (decide (historyIndex st = 0)) as [Hz | Hnz].
  - exists st. rewrite undo_at_first by done. repeat split; try done; lia.
  - destruct (lookup_lt_is_Some_2 (history st) (Z.to_nat (historyIndex st - 1)))
      as [snapshot Hsnap]; [lia |].
    exists (mkState (deep_copy (objects st) snapshot).1
                    (deep_copy (objects st) snapshot).2 (history st)
                    (historyIndex st - 1)).
    destruct (restore_synced st (historyIndex st - 1) snapshot) as [Hs' Hv'];
      [done | lia | done |].
    split.
    { unfold undo. rewrite (proj2 (Z.leb_gt _ _)) by lia. cbv zeta. by rewrite Hsnap. }
    split; [exact Hs' |]. split; [done |]. split; [exact Hv' |]. cbn. lia.
Qed.

Lemma redo_synced (st : State) :
  synced st →
  ∃ st', redo st = Some st' ∧ synced st' ∧ history st' = history st
         ∧ views st' = views st
         ∧ historyIndex st'
           = Z.min (historyIndex st + 1) (Z.of_nat (length (history st)) - 1).
Proof.
  intros Hs. pose proof Hs as (Hall & Hidx & Hshown).
  destruct (decide (historyIndex st = Z.of_nat (length (history st)) - 1)) as [Hz | Hnz].
  - exists st. rewrite redo_at_last by done. repeat split; try done; lia.
  - destruct (lookup_lt_is_Some_2 (history st) (Z.to_nat (historyIndex st + 1)))
      as [snapshot Hsnap]; [lia |].
    exists (mkState (deep_copy (objects st) snapshot).1
                    (deep_copy (objects st) snapshot).2 (history st)
                    (historyIndex st + 1)).
    destruct (restore_synced st (historyIndex st + 1) snapshot) as [Hs' Hv'];
      [done | lia | done |].
    split.
    { unfold redo. rewrite Z.geb_leb, (proj2 (Z.leb_gt _ _)) by lia. cbv zeta.
      rewrite (proj2 (Z.ltb_ge _ _)) by lia. by rewrite Hsnap. }
    split; [exact Hs' |]. split; [done |]. split; [exact Hv' |]. cbn. lia.
Qed.



(** Undo before anything is recorded ([Ctrl+Z] on a fresh canvas) moves the
    pointer from [-1] to [0] although there is no snapshot; the next
    [recordHistory] then leaves the pointer one past the only snapshot. *)
Remark undo_on_empty_history :
  undo initial = Some (mkState [] [] [] 0)
  ∧ history (recordHistory (mkState [Scenario.note] [0%nat] [] 0) [0%nat]) = [[1%nat]]
  ∧ historyIndex (recordHistory (mkState [Scenario.note] [0%nat] [] 0) [0%nat]) = 1.
Proof. repeat split. Qed.

(** *** The hook's undo and redo *)











End CanvasFacts.

(** * Properties of hit testing and freehand strokes *)

Module GeometryFacts.
Import Geometry.
Local Open Scope Q_scope.

(** *** Comparisons *)

Lemma Qltb_lt (a b : Q) : Qltb a b = true ↔ a < b.
Proof.
  unfold Qltb. rewrite negb_true_iff. split.
  - intros H. apply Qnot_le_lt. intros Hle. apply Qle_bool_iff in Hle. congruence.
  - intros H. destruct (Qle_bool b a) eqn:E; [| done].
    apply Qle_bool_iff in E. by apply Qlt_not_le in H.
Qed.

Lemma Qltb_ge (a b : Q) : Qltb a b = false ↔ b <= a.
Proof.
  unfold Qltb. rewrite negb_false_iff. apply Qle_bool_iff.
Qed.

Lemma sq_dist_along (px py x1 y1 x2 y2 t : Q) :
  sq_dist (px, py) (along (x1, y1) (x2, y2) t)
  == (px - x1) * (px - x1) + (py - y1) * (py - y1)
     - 2 * t * ((px - x1) * (x2 - x1) + (py - y1) * (y2 - y1))
     + t * t * ((x2 - x1) * (x2 - x1) + (y2 - y1) * (y2 - y1)).
Proof. unfold sq_dist, along. cbn. ring. Qed.

Lemma sq_nonneg (a : Q) : 0 <= a * a.
Proof.
  destruct (Qlt_le_dec a 0) as [Hneg | Hpos].
  - assert (a * a == (- a) * (- a)) as -> by ring.
    apply Qmult_le_0_compat; lra.
  - by apply Qmult_le_0_compat.
Qed.

(** [distanceToLineSq] is the least squared distance from the point to the
    points of the segment, and it is attained. *)
Lemma closest (px py x1 y1 x2 y2 : Q) :
  (∃ t, 0 <= t ∧ t <= 1
        ∧ distanceToLineSq px py x1 y1 x2 y2
          == sq_dist (px, py) (along (x1, y1) (x2, y2) t))
  ∧ (∀ t, 0 <= t → t <= 1 →
       distanceToLineSq px py x1 y1 x2 y2
       <= sq_dist (px, py) (along (x1, y1) (x2, y2) t)).
Proof.
  unfold distanceToLineSq. cbv zeta.
  set (A := px - x1). set (B := py - y1). set (C := x2 - x1). set (D := y2 - y1).
  assert (Hsq : ∀ t, sq_dist (px, py) (along (x1, y1) (x2, y2) t)
                     == A * A + B * B - 2 * t * (A * C + B * D) + t * t * (C * C + D * D)).
  { intros t. apply sq_dist_along. }
  destruct (Qeq_bool (C * C + D * D) 0) eqn:Hlen.
  - apply Qeq_bool_iff in Hlen.
    pose proof (sq_nonneg C) as HC0. pose proof (sq_nonneg D) as HD0.
    assert (HC : C * C == 0) by lra. assert (HD : D * D == 0) by lra.
    assert (HC' : C == 0).
    { destruct (Qeq_dec C 0) as [|Hne]; [done |].
      apply Qmult_integral in HC as [|]; done. }
    assert (HD' : D == 0).
    { destruct (Qeq_dec D 0) as [|Hne]; [done |].
      apply Qmult_integral in HD as [|]; done. }
    split.
    + exists 0. split; [lra |]. split; [lra |]. rewrite Hsq. ring.
    + intros t Ht0 Ht1. rewrite Hsq. rewrite HC', HD'. ring_simplify. lra.
  - apply Qeq_bool_neq in Hlen.
    assert (Hpos : 0 < C * C + D * D).
    { pose proof (sq_nonneg C). pose proof (sq_nonneg D).
      assert (0 <= C * C + D * D) as H1 by lra. apply Qle_lt_or_eq in H1 as [|]; [done |].
      destruct Hlen. by symmetry. }
    set (param := (A * C + B * D) / (C * C + D * D)).
    assert (Hparam : param * (C * C + D * D) == A * C + B * D).
    { unfold param. field. intros H0. apply Hlen. exact H0. }
    destruct (Qltb param 0) eqn:Hneg.
    + apply Qltb_lt in Hneg. cbn.
      assert (Hdot : A * C + B * D < 0) by nra.
      split.
      * exists 0. split; [lra |]. split; [lra |]. rewrite Hsq. fold A B. nra.
      * intros t Ht0 Ht1. rewrite Hsq. fold A B. nra.
    + apply Qltb_ge in Hneg. destruct (Qltb 1 param) eqn:Hbig.
      * apply Qltb_lt in Hbig. cbn.
        assert (Hdot : C * C + D * D < A * C + B * D) by nra.
        split.
        -- exists 1. split; [lra |]. split; [lra |]. rewrite Hsq.
           unfold A, B, C, D. ring.
        -- intros t Ht0 Ht1. rewrite Hsq.
           assert ((px - x2) * (px - x2) + (py - y2) * (py - y2)
                   == A * A + B * B - 2 * (A * C + B * D) + (C * C + D * D)) as ->
             by (unfold A, B, C, D; ring).
           assert (0 <= (1 - t) * (2 * (A * C + B * D) - 2 * (C * C + D * D)))
             by (apply Qmult_le_0_compat; lra).
           assert (0 <= (1 - t) * (1 - t) * (C * C + D * D))
             by (apply Qmult_le_0_compat; [apply sq_nonneg | lra]).
           lra.
      * apply Qltb_ge in Hbig. cbn. fold A B.
        assert (Hval : (A - param * C) * (A - param * C) + (B - param * D) * (B - param * D)
                == A * A + B * B - 2 * param * (A * C + B * D) + param * param * (C * C + D * D))
          by ring.
        split.
        -- exists param. split; [lra |]. split; [lra |]. rewrite Hsq.
           unfold A, B, C, D. ring.
        -- intros t Ht0 Ht1. rewrite Hsq.
           assert ((px - (x1 + param * C)) * (px - (x1 + param * C))
                   + (py - (y1 + param * D)) * (py - (y1 + param * D))
                   == A * A + B * B - 2 * param * (A * C + B * D) + param * param * (C * C + D * D)) as ->
             by (unfold A, B; ring).
           assert (0 <= (t - param) * (t - param) * (C * C + D * D))
             by (apply Qmult_le_0_compat; [apply sq_nonneg | lra]).
           assert (param * param * (C * C + D * D) == param * (A * C + B * D))
             by (rewrite <- Hparam; ring).
           assert (t * param * (C * C + D * D) == t * (A * C + B * D))
             by (rewrite <- Hparam; ring).
           lra.
Qed.

(** *** Distance to a segment *)

(** [near] holds exactly when some point of the segment is less than 10
    away. *)
Lemma near_iff (px py x1 y1 x2 y2 : Q) :
  near (distanceToLineSq px py x1 y1 x2 y2) = true
  ↔ near_segment (px, py) (x1, y1) (x2, y2).
Proof.
  unfold near, near_segment. rewrite Qltb_lt.
  destruct (closest px py x1 y1 x2 y2) as [(t0 & Ht0 & Ht1 & Heq) Hmin].
  split.
  - intros Hlt. exists t0. split; [done |]. split; [done |]. by rewrite <- Heq.
  - intros (t & Ht0' & Ht1' & Hlt). eapply Qle_lt_trans; [by apply Hmin | done].
Qed.



(** *** The scan *)

Lemma find_rev_last {A} (p : A → bool) (l : list A) :
  match List.find p (rev l) with
  | Some a =>
      ∃ i, l !! i = Some a ∧ p a = true
           ∧ ∀ j b, (i < j)%nat → l !! j = Some b → p b = false
  | None => ∀ b, b ∈ l → p b = false
  end.
Proof.
  induction l as [| a l IH] using rev_ind; cbn.
  - intros b Hb. by apply elem_of_nil in Hb.
  - rewrite rev_unit. cbn. destruct (p a) eqn:Hpa.
    + exists (length l). split; [by rewrite lookup_app_r, Nat.sub_diag |].
      split; [done |]. intros j b Hj Hb.
      apply lookup_lt_Some in Hb. rewrite length_app in Hb. cbn in Hb. lia.
    + destruct (List.find p (rev l)) as [found |].
      * destruct IH as (i & Hi & Hp & Hlater). exists i.
        split; [by apply lookup_app_l_Some |]. split; [done |].
        intros j b Hj Hb. apply lookup_app_Some in Hb as [Hb | [Hlen Hb]].
        -- by apply (Hlater j).
        -- apply list_lookup_singleton_Some in Hb as [_ <-]. done.
      * intros b Hb. apply elem_of_app in Hb as [Hb | Hb]; [by apply IH |].
        apply list_elem_of_singleton in Hb as ->. done.
Qed.


(** *** Freehand strokes *)

















(** Zoomed out to a quarter, the same sweep moves 4 canvas units per
    sample, and all 50 samples are kept: the threshold applies to canvas
    coordinates. *)
Remark zoomed_out_stroke_keeps_all :
  ∃ stroke,
    drawn (drawStroke (mkPage [] tool_pen None (1 # 4)) Scenario.surface 7
             Scenario.pen_down Scenario.sweep) = Some stroke
    ∧ length (points stroke) = 50%nat.
Proof. eexists. split; [by vm_compute | reflexivity]. Qed.

End GeometryFacts.

(** * Presence: joining, leaving, disconnecting *)

Module PresenceFacts.
Import Server Relay Session.

(** ** What [handleUserLeaveBoard] does to each part of the state *)

Lemma leave_boards (σ : State) (socket : Socket) (boardId : string) (now : Z) :
  boards (handleUserLeaveBoard σ socket boardId now).1 = boards σ.
Proof.
  unfold handleUserLeaveBoard. cbn.
  destruct (boardRooms σ !! boardId);
    match goal with
    | |- context [activeUsers ?s !! ?u] => by destruct (activeUsers s !! u)
    end.
Qed.

Lemma leave_tracked (σ : State) (socket : Socket) (boardId other : string)
    (now : Z) :
  tracked (handleUserLeaveBoard σ socket boardId now).1 other
  = if decide (other = boardId)
    then set_delete (socket_userId socket) (tracked σ boardId)
    else tracked σ other.
Proof.
  unfold handleUserLeaveBoard, tracked.
  destruct (boardRooms σ !! boardId) as [members |] eqn:Hmem;
    match goal with
    | |- context [activeUsers ?s !! ?u] => destruct (activeUsers s !! u)
    end; cbn.
  1, 2: case_decide as Hlen; case_decide as Hb; subst;
    rewrite ?lookup_delete_eq, ?lookup_delete_ne, ?lookup_insert_eq,
      ?lookup_insert_ne by done; try done;
    cbn; by apply length_zero_iff_nil in Hlen.
  all: case_decide; subst; by rewrite ?Hmem.
Qed.

Lemma leave_boardRooms (σ : State) (socket : Socket) (boardId : string)
    (now : Z) (other : string) (members : list string) :
  boardRooms (handleUserLeaveBoard σ socket boardId now).1 !! other = Some members →
  (other = boardId ∧ members ≠ []
   ∧ ∃ before, boardRooms σ !! boardId = Some before
               ∧ members = set_delete (socket_userId socket) before)
  ∨ (other ≠ boardId ∧ boardRooms σ !! other = Some members).
Proof.
  unfold handleUserLeaveBoard.
  destruct (boardRooms σ !! boardId) as [before |] eqn:Hmem;
    match goal with
    | |- context [activeUsers ?s !! ?u] => destruct (activeUsers s !! u)
    end; cbn.
  1, 2: case_decide as Hlen; destruct (decide (other = boardId)) as [-> | Hne];
    rewrite ?lookup_delete_eq, ?lookup_delete_ne, ?lookup_insert_eq,
      ?lookup_insert_ne by done; try done;
    intros Hm;
    first [ by right
          | injection Hm as <-; left; split; [done |]; split;
            [ by intros Hnil; rewrite Hnil in Hlen | by exists before ] ].
  all: intros Hother; right; split; [| done].
  all: intros ->; by rewrite Hmem in Hother.
Qed.

Lemma leave_activeUsers (σ : State) (socket : Socket) (boardId : string)
    (now : Z) :
  activeUsers (handleUserLeaveBoard σ socket boardId now).1
  = match activeUsers σ !! socket_userId socket with
    | Some old =>
        <[socket_userId socket :=
            mkUserData (socketId old) (user old) (joinedAt old) None (role old)]>
          (activeUsers σ)
    | None => activeUsers σ
    end.
Proof.
  unfold handleUserLeaveBoard.
  destruct (boardRooms σ !! boardId); cbn;
    by destruct (activeUsers σ !! socket_userId socket).
Qed.

Lemma leave_board_of (σ : State) (socket : Socket) (boardId : string)
    (now : Z) (userId : string) :
  board_of (handleUserLeaveBoard σ socket boardId now).1 userId
  = if decide (userId = socket_userId socket) then None else board_of σ userId.
Proof.
  unfold board_of. rewrite leave_activeUsers.
  case_decide as Hu; subst.
  - destruct (activeUsers σ !! socket_userId socket) eqn:Hold.
    + by rewrite lookup_insert_eq.
    + by rewrite Hold.
  - destruct (activeUsers σ !! socket_userId socket); [| done].
    by rewrite lookup_insert_ne.
Qed.

Lemma leave_room (σ : State) (socket : Socket) (boardId other : string)
    (now : Z) :
  room (handleUserLeaveBoard σ socket boardId now).1 other
  = if decide (other = boardId) then room σ boardId ∖ {[ socket_id socket ]}
    else room σ other.
Proof.
  assert (Hrooms : rooms (handleUserLeaveBoard σ socket boardId now).1
                   = <[boardId := room σ boardId ∖ {[ socket_id socket ]}]> (rooms σ)).
  { unfold handleUserLeaveBoard. cbn [fst].
    destruct (boardRooms σ !! boardId);
      match goal with
      | |- context [activeUsers ?s !! ?u] => by destruct (activeUsers s !! u)
      end. }
  unfold room at 1. rewrite Hrooms.
  destruct (decide (other = boardId)) as [-> | Hne].
  - by rewrite lookup_insert_eq.
  - by rewrite lookup_insert_ne.
Qed.

Lemma set_delete_NoDup (x : string) (s : list string) :
  NoDup s → NoDup (set_delete x s).
Proof. apply NoDup_filter. Qed.

Lemma set_delete_only (x : string) (s : list string) :
  (∀ y, y ∈ s → y = x) → set_delete x s = [].
Proof.
  unfold set_delete. induction s as [| y s IH]; intros Honly; [done |].
  rewrite filter_cons, decide_False.
  - apply IH. intros z Hz. apply Honly. by apply list_elem_of_further.
  - intros Hne. apply Hne, Honly, list_elem_of_here.
Qed.

Lemma set_add_NoDup (x : string) (s : list string) :
  NoDup s → NoDup (set_add x s).
Proof.
  intros Hs. unfold set_add. case_decide as Hin; [done |].
  apply NoDup_app. split; [done |]. split; [| apply NoDup_singleton].
  intros y Hy ->%list_elem_of_singleton. done.
Qed.

Lemma set_add_elem (x y : string) (s : list string) :
  y ∈ set_add x s ↔ y = x ∨ y ∈ s.
Proof.
  unfold set_add. case_decide as Hin.
  - split; [by right | by intros [-> |]].
  - rewrite elem_of_app, list_elem_of_singleton. tauto.
Qed.

Lemma set_add_nonempty (x : string) (s : list string) : set_add x s ≠ [].
Proof.
  intros Hnil. assert (Hx : x ∈ set_add x s) by (apply set_add_elem; by left).
  rewrite Hnil in Hx. by apply elem_of_nil in Hx.
Qed.

(** ** What [join-board] does to each part of the state *)

Lemma moved_fields (σ : State) (socket : Socket) (boardId : string) :
  activeUsers (moved σ socket boardId) = activeUsers σ
  ∧ boardRooms (moved σ socket boardId) = boardRooms σ
  ∧ boards (moved σ socket boardId) = boards σ.
Proof.
  unfold moved. by destruct (activeUsers σ !! socket_userId socket ≫= currentBoard).
Qed.

Lemma join_board_unfold (σ : State) (socket : Socket) (boardId : string)
    (board : Board) (old : UserData) :
  boards σ !! boardId = Some board →
  access_hasAccess (hasAccess board (socket_userId socket)) = true →
  activeUsers σ !! socket_userId socket = Some old →
  let userData :=
    mkUserData (socketId old) (user old) (joinedAt old) (Some boardId)
               (access_role (hasAccess board (socket_userId socket))) in
  let σ' :=
    mkState (<[socket_userId socket := userData]> (activeUsers σ))
            (<[boardId := set_add (socket_userId socket) (tracked σ boardId)]>
               (boardRooms σ))
            (rooms (moved σ socket boardId)) (boards σ) in
  join_board σ socket boardId
  = (σ',
     [socket_to σ' socket boardId
        (Ev_user_joined (user old) (access_role (hasAccess board (socket_userId socket)))
           (joinedAt old));
      socket_emit socket
        (Ev_board_joined boardId
           (access_role (hasAccess board (socket_userId socket)))
           (usersInBoard σ' boardId));
      io_to σ' boardId (Ev_active_users_updated (usersInBoard σ' boardId))]).
Proof.
  intros Hboard Haccess Hold. cbv zeta.
  unfold join_board. rewrite Hboard. cbv zeta. rewrite Haccess. cbn [negb].
  fold (moved σ socket boardId).
  destruct (moved_fields σ socket boardId) as (Husers & Hrooms & Hboards).
  rewrite Husers, Hold.
  unfold set_boardRooms, set_activeUsers. cbn [boardRooms activeUsers rooms boards].
  rewrite Hrooms, Hboards. reflexivity.
Qed.

Lemma join_board_state (σ : State) (socket : Socket) (boardId : string) :
  let σ' := (join_board σ socket boardId).1 in
  boards σ' = boards σ
  ∧ ((activeUsers σ' = activeUsers σ ∧ boardRooms σ' = boardRooms σ)
     ∨ ∃ userData,
         currentBoard userData = Some boardId
         ∧ activeUsers σ' = <[socket_userId socket := userData]> (activeUsers σ)
         ∧ boardRooms σ'
           = <[boardId := set_add (socket_userId socket) (tracked σ boardId)]>
               (boardRooms σ)).
Proof.
  cbv zeta.
  destruct (boards σ !! boardId) as [board |] eqn:Hboard;
    [| unfold join_board; rewrite Hboard; split; [done | by left]].
  destruct (access_hasAccess (hasAccess board (socket_userId socket))) eqn:Hacc;
    [| unfold join_board; rewrite Hboard; cbv zeta; rewrite Hacc; split;
       [done | by left]].
  destruct (activeUsers σ !! socket_userId socket) as [old |] eqn:Hold.
  - rewrite (join_board_unfold σ socket boardId board old Hboard Hacc Hold).
    cbn. split; [done |]. right.
    eexists. split; [| split; reflexivity]. reflexivity.
  - unfold join_board. rewrite Hboard. cbv zeta. rewrite Hacc. cbn [negb].
    fold (moved σ socket boardId).
    destruct (moved_fields σ socket boardId) as (Husers & Hrooms & Hboards).
    rewrite Husers, Hold. cbn. split; [done | by left].
Qed.

Lemma room_moved (σ : State) (socket : Socket) (boardId other : string) :
  room (moved σ socket boardId) other
  = if decide (other = boardId)
    then {[ socket_id socket ]}
         ∪ (if decide (board_of σ (socket_userId socket) = Some boardId)
            then room σ boardId ∖ {[ socket_id socket ]} else room σ boardId)
    else if decide (board_of σ (socket_userId socket) = Some other)
         then room σ other ∖ {[ socket_id socket ]} else room σ other.
Proof.
  unfold moved, board_of.
  destruct (activeUsers σ !! socket_userId socket ≫= currentBoard) as [previous |];
    unfold socket_join, socket_leave, set_rooms; unfold room;
    cbn [rooms activeUsers boardRooms boards];
    repeat case_decide; simplify_eq;
    rewrite ?lookup_insert_eq; cbn [default];
    rewrite ?lookup_insert_ne by congruence;
    rewrite ?lookup_insert_eq; cbn [default];
    rewrite ?lookup_insert_ne by congruence; try done.
Qed.

(** ** Refused joins *)

(** X1.  A [join-board] for a board that does not exist, or to which the
    user has no access, changes nothing: the state is as before (presence
    maps, rooms and boards), and the only emission is one [error] event to
    the sender, "Board not found" in the first case and "Access denied to
    board" in the second. *)
Theorem join_board_refused (σ : State) (socket : Socket) (boardId : string) :
  (∀ board, boards σ !! boardId = Some board →
            access_hasAccess (hasAccess board (socket_userId socket)) = false) →
  join_board σ socket boardId
  = (σ, [socket_emit socket
           (Ev_error (match boards σ !! boardId with
                      | None => "Board not found"
                      | Some _ => "Access denied to board"
                      end))]).
Proof.
  intros Hdenied. unfold join_board.
  destruct (boards σ !! boardId) as [board |]; [| done].
  by rewrite (Hdenied board eq_refl).
Qed.

Lemma join_board_refused_witness :
  join_board Scenario.connected Workshop.dan "B"
  = (Scenario.connected,
     [socket_emit Workshop.dan (Ev_error "Access denied to board")]).
Proof.
  apply (join_board_refused Scenario.connected Workshop.dan "B").
  intros board [= <-]. reflexivity.
Defined.

(** ** Successful joins *)

(** X2.  When a connected user with access joins a board, the entry of the
    user records the board and the role that [hasAccess] gave; the user is
    tracked on the board and the socket is in its room; the socket is in
    the room of no other board that the entry recorded before (one room
    per connection); no board document changes.  Three events go out, in
    this order: [user-joined] to the room without the sender,
    [board-joined] to the sender, [active-users-updated] to the whole
    room, the last two carrying the same user list, which holds the
    sender's entry. *)
Theorem join_board_joins (σ : State) (socket : Socket) (boardId : string)
    (board : Board) (old : UserData) :
  boards σ !! boardId = Some board →
  access_hasAccess (hasAccess board (socket_userId socket)) = true →
  activeUsers σ !! socket_userId socket = Some old →
  let r := access_role (hasAccess board (socket_userId socket)) in
  let userData := mkUserData (socketId old) (user old) (joinedAt old) (Some boardId) r in
  let '(σ', out) := join_board σ socket boardId in
  activeUsers σ' !! socket_userId socket = Some userData
  ∧ socket_userId socket ∈ tracked σ' boardId
  ∧ socket_id socket ∈ room σ' boardId
  ∧ (∀ previous, currentBoard old = Some previous → previous ≠ boardId →
       socket_id socket ∉ room σ' previous)
  ∧ boards σ' = boards σ
  ∧ userData ∈ usersInBoard σ' boardId
  ∧ out = [mkEmission (room σ' boardId ∖ {[ socket_id socket ]})
             (Ev_user_joined (user old) r (joinedAt old));
           mkEmission {[ socket_id socket ]}
             (Ev_board_joined boardId r (usersInBoard σ' boardId));
           mkEmission (room σ' boardId)
             (Ev_active_users_updated (usersInBoard σ' boardId))].
Proof.
  intros Hboard Haccess Hold. cbv zeta.
  rewrite (join_board_unfold σ socket boardId board old Hboard Haccess Hold).
  cbv zeta.
  set (userData := mkUserData _ _ _ _ _).
  set (σ' := mkState _ _ _ _).
  assert (Htracked : socket_userId socket ∈ tracked σ' boardId).
  { unfold tracked, σ'. cbn. rewrite lookup_insert_eq. cbn.
    apply set_add_elem. by left. }
  split; [apply lookup_insert_eq |]. split; [exact Htracked |].
  split.
  { change (room σ' boardId) with (room (moved σ socket boardId) boardId).
    rewrite room_moved, decide_True by done.
    apply elem_of_union_l. by apply elem_of_singleton. }
  split.
  { intros previous Hprev Hne.
    change (room σ' previous) with (room (moved σ socket boardId) previous).
    rewrite room_moved, decide_False by done.
    rewrite decide_True by (unfold board_of; by rewrite Hold).
    rewrite elem_of_difference, elem_of_singleton. tauto. }
  split; [done |]. split; [| done].
  unfold usersInBoard. apply list_elem_of_omap.
  exists (socket_userId socket). split; [exact Htracked |].
  apply lookup_insert_eq.
Qed.

Lemma join_board_joins_witness :
  socket_id Scenario.bob ∈ room (join_board Scenario.connected Scenario.bob "B").1 "B"
  ∧ tracked (join_board Scenario.connected Scenario.bob "B").1 "B" = ["bob"].
Proof.
  pose proof (join_board_joins Scenario.connected Scenario.bob "B" Scenario.board0
                (mkUserData "socket-bob" (mkUserInfo "bob" "Bob") 2 None None)
                eq_refl eq_refl eq_refl) as H.
  cbv zeta in H.
  destruct (join_board Scenario.connected Scenario.bob "B") as [σ' out] eqn:Hjoin.
  destruct H as (_ & _ & Hroom & _).
  split; [exact Hroom |].
  apply (f_equal fst) in Hjoin. cbn [fst] in Hjoin. rewrite <- Hjoin.
  by vm_compute.
Defined.

(** ** Leaving *)

(** X3.  [leave-board] from a connection whose entry records a board takes
    the user out of that board: the entry records no board, the user is no
    longer tracked on it, the socket is out of its room; nobody else's
    tracking or entry changes, and no board document does.  The first
    emission is [user-left] to the room without the sender, and no
    emission is addressed to the sender.  If the user was the only one
    tracked, the emptied room is dropped from [boardRooms] and [user-left]
    is the only emission. *)
Theorem leave_board_leaves (σ : State) (socket : Socket) (boardId : string)
    (now : Z) :
  board_of σ (socket_userId socket) = Some boardId →
  let '(σ', out) := leave_board σ socket now in
  board_of σ' (socket_userId socket) = None
  ∧ (socket_userId socket ∉ tracked σ' boardId)
  ∧ (socket_id socket ∉ room σ' boardId)
  ∧ (∀ userId other, userId ≠ socket_userId socket →
       activeUsers σ' !! userId = activeUsers σ !! userId
       ∧ (userId ∈ tracked σ' other ↔ userId ∈ tracked σ other))
  ∧ boards σ' = boards σ
  ∧ (∃ u rest,
       out = mkEmission (room σ boardId ∖ {[ socket_id socket ]})
               (Ev_user_left (socket_userId socket) u now) :: rest)
  ∧ (∀ e, e ∈ out → socket_id socket ∉ to e)
  ∧ ((∀ userId, userId ∈ tracked σ boardId → userId = socket_userId socket) →
       boardRooms σ' !! boardId = None ∧ length out = 1%nat).
Proof.
  intros Hon. unfold leave_board. unfold board_of in Hon. rewrite Hon.
  destruct (handleUserLeaveBoard σ socket boardId now) as [σ' out] eqn:Hleave.
  assert (Hσ' : σ' = (handleUserLeaveBoard σ socket boardId now).1)
    by (by rewrite Hleave).
  assert (Hout : out = (handleUserLeaveBoard σ socket boardId now).2)
    by (by rewrite Hleave).
  clear Hleave. subst σ'.
  split; [by rewrite leave_board_of, decide_True |].
  split.
  { rewrite leave_tracked, decide_True by done. unfold set_delete.
    rewrite list_elem_of_filter. by intros [? _]. }
  split.
  { rewrite leave_room, decide_True by done.
    rewrite elem_of_difference, elem_of_singleton. tauto. }
  split.
  { intros userId other Hne. split.
    - rewrite leave_activeUsers.
      destruct (activeUsers σ !! socket_userId socket); [| done].
      by rewrite lookup_insert_ne.
    - rewrite leave_tracked. case_decide; subst; [| done].
      unfold set_delete. rewrite list_elem_of_filter. tauto. }
  split; [apply leave_boards |].
  assert (Hshape : ∃ u rest,
    out = mkEmission (room σ boardId ∖ {[ socket_id socket ]})
            (Ev_user_left (socket_userId socket) u now) :: rest
    ∧ (∀ e, e ∈ rest → socket_id socket ∉ to e)
    ∧ ((∀ userId, userId ∈ tracked σ boardId → userId = socket_userId socket) →
       boardRooms (handleUserLeaveBoard σ socket boardId now).1 !! boardId = None
       ∧ rest = [])).
  { subst out. unfold handleUserLeaveBoard, tracked.
    destruct (boardRooms σ !! boardId) as [members |] eqn:Hmem; cbn zeta.
    - destruct (decide (length (set_delete (socket_userId socket) members) = 0%nat))
        as [Hlen | Hlen].
      + eexists _, []. cbn [snd fst].
        unfold socket_leave, set_boardRooms, set_rooms.
        cbn [boardRooms rooms activeUsers boards].
        rewrite lookup_delete_eq.
        split; [reflexivity |]. split; [by intros e ?%elem_of_nil |].
        intros _. split; [| done].
        by destruct (activeUsers σ !! socket_userId socket); cbn;
          rewrite lookup_delete_eq.
      + eexists _, [_]. cbn [snd fst].
        unfold socket_leave, set_boardRooms, set_rooms.
        cbn [boardRooms rooms activeUsers boards].
        rewrite lookup_insert_eq.
        split; [reflexivity |]. split.
        * intros e ->%list_elem_of_singleton. unfold socket_to. cbn.
          rewrite elem_of_difference, elem_of_singleton. tauto.
        * intros Honly. exfalso. apply Hlen.
          by rewrite set_delete_only.
    - eexists _, []. cbn [snd fst].
      unfold socket_leave, set_boardRooms, set_rooms.
      cbn [boardRooms rooms activeUsers boards]. rewrite Hmem.
      split; [reflexivity |]. split; [by intros e ?%elem_of_nil |].
      intros _. split; [| done].
      by destruct (activeUsers σ !! socket_userId socket); cbn. }
  destruct Hshape as (u & rest & -> & Hrest & Hdrop).
  split; [by exists u, rest |]. split.
  - intros e [-> | Hin]%elem_of_cons; [| by apply Hrest].
    cbn. rewrite elem_of_difference, elem_of_singleton. tauto.
  - intros Honly. destruct (Hdrop Honly) as [Hnone ->]. by split.
Qed.

Lemma leave_board_leaves_witness :
  board_of (leave_board Scenario.joined Scenario.bob 9).1 "bob" = None
  ∧ tracked (leave_board Scenario.joined Scenario.bob 9).1 "B" = ["alice"; "carol"].
Proof.
  pose proof (leave_board_leaves Scenario.joined Scenario.bob "B" 9 eq_refl) as H.
  destruct (leave_board Scenario.joined Scenario.bob 9) as [σ' out] eqn:Hleave.
  destruct H as (Hoff & _).
  split; [exact Hoff |].
  apply (f_equal fst) in Hleave. cbn [fst] in Hleave. rewrite <- Hleave.
  by vm_compute.
Defined.

(** ** Disconnecting *)

(** X4.  After [disconnect] the user has no entry in [activeUsers], the
    socket is in no room, and no user list computed for any board holds an
    entry of this user: every listed entry is the unchanged entry of
    another user.  The entries of the others and the board documents are
    untouched, and nothing is emitted to the socket that went away. *)
Theorem disconnect_forgets (σ : State) (socket : Socket) (now : Z) :
  let '(σ', out) := disconnect σ socket now in
  activeUsers σ' !! socket_userId socket = None
  ∧ (∀ boardId, socket_id socket ∉ room σ' boardId)
  ∧ (∀ userId, userId ≠ socket_userId socket →
       activeUsers σ' !! userId = activeUsers σ !! userId)
  ∧ (∀ boardId userData, userData ∈ usersInBoard σ' boardId →
       ∃ userId, userId ≠ socket_userId socket
                 ∧ activeUsers σ !! userId = Some userData)
  ∧ boards σ' = boards σ
  ∧ (∀ e, e ∈ out → socket_id socket ∉ to e).
Proof.
  unfold disconnect.
  set (σ0 := set_rooms σ _).
  assert (Hroom0 : ∀ boardId, socket_id socket ∉ room σ0 boardId).
  { intros boardId. unfold room, σ0. cbn. rewrite lookup_fmap.
    destruct (rooms σ !! boardId); cbn; [| apply not_elem_of_empty].
    rewrite elem_of_difference, elem_of_singleton. tauto. }
  assert (Hstep : ∃ σ1 out,
    match activeUsers σ0 !! socket_userId socket ≫= currentBoard with
    | Some boardId => handleUserLeaveBoard σ0 socket boardId now
    | None => (σ0, [])
    end = (σ1, out)
    ∧ (∀ boardId, socket_id socket ∉ room σ1 boardId)
    ∧ (∀ userId, userId ≠ socket_userId socket →
         activeUsers σ1 !! userId = activeUsers σ !! userId)
    ∧ boards σ1 = boards σ
    ∧ (∀ e, e ∈ out → socket_id socket ∉ to e)).
  { destruct (activeUsers σ0 !! socket_userId socket ≫= currentBoard)
      as [boardId |] eqn:Hon.
    - exists (handleUserLeaveBoard σ0 socket boardId now).1,
             (handleUserLeaveBoard σ0 socket boardId now).2.
      split; [by destruct (handleUserLeaveBoard σ0 socket boardId now) |].
      split.
      { intros other. rewrite leave_room. case_decide; [| apply Hroom0].
        rewrite elem_of_difference, elem_of_singleton. tauto. }
      split.
      { intros userId Hne. rewrite leave_activeUsers.
        destruct (activeUsers σ0 !! socket_userId socket); [| done].
        by rewrite lookup_insert_ne. }
      split; [by rewrite leave_boards |].
      intros e. unfold handleUserLeaveBoard. cbn [snd].
      intros [-> | Hin]%elem_of_cons.
      + cbn. rewrite elem_of_difference, elem_of_singleton. tauto.
      + match type of Hin with
        | e ∈ match ?c with _ => _ end => destruct c
        end; [| by apply elem_of_nil in Hin].
        apply list_elem_of_singleton in Hin as ->. cbn.
        rewrite elem_of_difference, elem_of_singleton. tauto.
    - exists σ0, []. split; [done |]. split; [exact Hroom0 |].
      split; [done |]. split; [done |]. by intros e ?%elem_of_nil. }
  destruct Hstep as (σ1 & out & -> & Hroom & Hothers & Hboards & Hout).
  split; [apply lookup_delete_eq |].
  split; [exact Hroom |].
  split.
  { intros userId Hne. cbn. rewrite lookup_delete_ne by done. by apply Hothers. }
  split.
  { intros boardId userData. unfold usersInBoard. rewrite list_elem_of_omap.
    intros (userId & _ & Hentry). cbn in Hentry.
    destruct (decide (userId = socket_userId socket)) as [-> | Hne].
    - by rewrite lookup_delete_eq in Hentry.
    - rewrite lookup_delete_ne in Hentry by done.
      exists userId. split; [done |]. by rewrite <- Hothers. }
  split; [exact Hboards | exact Hout].
Qed.

(** ** Invariants of the presence maps *)

Lemma handleUserLeaveBoard_tidy (σ : State) (socket : Socket)
    (boardId : string) (now : Z) :
  tidy σ → tidy (handleUserLeaveBoard σ socket boardId now).1.
Proof.
  intros Htidy other members Hmem.
  apply leave_boardRooms in Hmem as [(-> & Hne & before & Hbefore & ->) | [_ Hmem]].
  - split; [| done]. apply set_delete_NoDup. by apply (Htidy boardId).
  - by apply (Htidy other).
Qed.


Lemma join_board_tidy (σ : State) (socket : Socket) (boardId : string) :
  tidy σ → tidy (join_board σ socket boardId).1.
Proof.
  intros Htidy.
  destruct (join_board_state σ socket boardId) as [_ [[_ Hrooms] | (ud & _ & _ & Hrooms)]];
    intros other members; rewrite Hrooms; [apply Htidy |].
  destruct (decide (other = boardId)) as [-> | Hne].
  - rewrite lookup_insert_eq. intros [= <-]. split; [| apply set_add_nonempty].
    apply set_add_NoDup. unfold tracked.
    destruct (boardRooms σ !! boardId) as [before |] eqn:Hbefore; cbn.
    + by apply (Htidy boardId).
    + apply NoDup_nil_2.
  - rewrite lookup_insert_ne by done. apply Htidy.
Qed.


Lemma on_mutation_presence (σ : State) (socket : Socket) (m : Mutation) (now : Z) :
  activeUsers (on_mutation σ socket m now).1 = activeUsers σ
  ∧ boardRooms (on_mutation σ socket m now).1 = boardRooms σ
  ∧ rooms (on_mutation σ socket m now).1 = rooms σ.
Proof.
  destruct m as [d | boardId element | boardId element | boardId elementId]; cbn.
  - unfold canvas_update.
    destruct (in_board σ socket (cu_boardId d)); [| done].
    destruct (boards σ !! cu_boardId d) as [board |]; [| done]. cbv zeta.
    match goal with |- context [if ?c then _ else _] => destruct c end; [done |].
    by destruct (canvas_action board (socket_userId socket) d now).
  - unfold element_create.
    destruct (edit_guard σ socket boardId) as [denied | [userData board]]; [done |].
    by destruct element.
  - unfold element_update.
    destruct (edit_guard σ socket boardId) as [denied | [userData board]]; [done |].
    destruct element as [element |]; [| by destruct (elements board)].
    by destruct (findIndex (has_id (get element "id")) (elements board)).
  - unfold element_delete.
    destruct (edit_guard σ socket boardId) as [denied | [userData board]]; [done |].
    by destruct (existsb (has_id elementId) (elements board)).
Qed.

Lemma board_save_presence (σ : State) (socket : Socket) (boardId : string)
    (els : option (list obj)) (now : Z) :
  activeUsers (board_save σ socket boardId els now).1 = activeUsers σ
  ∧ boardRooms (board_save σ socket boardId els now).1 = boardRooms σ
  ∧ rooms (board_save σ socket boardId els now).1 = rooms σ.
Proof.
  unfold board_save. destruct (in_board σ socket boardId); [| done]. cbn.
  destruct els as [els |]; [| done].
  destruct (boards σ !! boardId) as [board |]; [| done].
  by match goal with |- context [if ?c then _ else _] => destruct c end.
Qed.

Lemma user_removed_state (sockets : gmap string Socket) (σ : State)
    (socket : Socket) (userId boardId : string) (now : Z) :
  (user_removed sockets σ socket userId boardId now).1 = σ
  ∨ ∃ removedUserSocket,
      (user_removed sockets σ socket userId boardId now).1
      = (handleUserLeaveBoard σ removedUserSocket boardId now).1.
Proof.
  unfold user_removed. cbv zeta.
  destruct (activeUsers σ !! userId) as [removedUserData |]; [| by left].
  destruct (sockets !! socketId removedUserData) as [removedUserSocket |];
    [| by left].
  right. exists removedUserSocket.
  by destruct (handleUserLeaveBoard σ removedUserSocket boardId now).
Qed.

Lemma same_presence (σ σ' : State) :
  activeUsers σ' = activeUsers σ → boardRooms σ' = boardRooms σ →
  (tidy σ → tidy σ') ∧ (current_tracked σ → current_tracked σ').
Proof.
  intros Husers Hrooms.
  unfold tidy, current_tracked, board_of, tracked. rewrite Husers, Hrooms. tauto.
Qed.

Lemma handle_tidy (sockets : gmap string Socket) (σ : State) (socket : Socket)
    (rq : Request) (now : Z) :
  tidy σ → tidy (handle sockets σ socket rq now).
Proof.
  intros Htidy. destruct rq; cbn [handle]; try done.
  - by apply join_board_tidy.
  - unfold leave_board.
    destruct (activeUsers σ !! socket_userId socket ≫= currentBoard); [| done].
    by apply handleUserLeaveBoard_tidy.
  - unfold disconnect.
    set (σ0 := set_rooms σ _).
    assert (H0 : tidy σ0) by exact Htidy.
    destruct (activeUsers σ0 !! socket_userId socket ≫= currentBoard) as [boardId |].
    + pose proof (handleUserLeaveBoard_tidy σ0 socket boardId now H0) as H1.
      destruct (handleUserLeaveBoard σ0 socket boardId now) as [σ1 out].
      exact H1.
    + exact H0.
  - destruct (on_mutation_presence σ socket m now) as (Husers & Hrooms & _).
    by apply (same_presence σ).
  - destruct (board_save_presence σ socket boardId els now) as (Husers & Hrooms & _).
    by apply (same_presence σ).
  - destruct (user_removed_state sockets σ socket userId boardId now)
      as [-> | [removedUserSocket ->]]; [done |].
    by apply handleUserLeaveBoard_tidy.
Qed.


(** X5.  In every state the server can reach -- whatever requests the
    sockets send, in whatever order, and however the board collection
    changes in between -- no tracked member set is empty and none lists a
    user twice: an emptied room is always dropped, a repeated join never
    duplicates a member. *)
Theorem reachable_tidy (σ : State) : reachable σ → tidy σ.
Proof.
  induction 1 as [boards0 | σ sockets socket rq now _ IH | σ boards' _ IH].
  - intros boardId members Hmem. cbn in Hmem. by rewrite lookup_empty in Hmem.
  - by apply handle_tidy.
  - exact IH.
Qed.

Lemma reachable_tidy_witness :
  tidy (handle ∅ (handle ∅ Scenario.start Scenario.alice Rq_connection 1)
          Scenario.alice (Rq_join_board "B") 2).
Proof.
  apply (reachable_tidy
           (handle ∅ (handle ∅ Scenario.start Scenario.alice Rq_connection 1)
              Scenario.alice (Rq_join_board "B") 2)).
  apply reach_request, reach_request, reach_start.
Defined.



End PresenceFacts.

(** * Mutations of the element store *)

Module MutationFacts.
Import Server Session.

Lemma outside_board (σ : State) (socket : Socket) (boardId : string) :
  board_of σ (socket_userId socket) ≠ Some boardId →
  in_board σ socket boardId = None.
Proof.
  unfold board_of, in_board.
  destruct (activeUsers σ !! socket_userId socket) as [userData |]; [| done].
  cbn. intros Hne. by rewrite decide_False.
Qed.

(** X7.  An event that names a board which the sender's entry does not
    record -- the user never joined it, left it, or is not connected at
    all -- is refused before anything is read or written: each of the four
    mutation events and [board-save] leaves the state unchanged and sends
    one [error "Not in this board"] to the sender only. *)
Theorem mutation_outside_board (σ : State) (socket : Socket) (m : Mutation)
    (els : option (list obj)) (now : Z) :
  board_of σ (socket_userId socket) ≠ Some (mutation_boardId m) →
  on_mutation σ socket m now
  = (σ, [mkEmission {[ socket_id socket ]} (Ev_error "Not in this board")])
  ∧ board_save σ socket (mutation_boardId m) els now
    = (σ, [mkEmission {[ socket_id socket ]} (Ev_error "Not in this board")]).
Proof.
  intros Hout%outside_board. split.
  - destruct m as [d | boardId element | boardId element | boardId elementId];
      cbn in Hout |- *.
    + unfold canvas_update. by rewrite Hout.
    + unfold element_create, edit_guard. by rewrite Hout.
    + unfold element_update, edit_guard. by rewrite Hout.
    + unfold element_delete, edit_guard. by rewrite Hout.
  - unfold board_save. by rewrite Hout.
Qed.

Lemma mutation_outside_board_witness :
  on_mutation Scenario.joined Scenario.bob
    (element_delete_ev "C" (VStr "n1")) 8
  = (Scenario.joined,
     [mkEmission {[ socket_id Scenario.bob ]} (Ev_error "Not in this board")]).
Proof.
  refine (proj1 (mutation_outside_board Scenario.joined Scenario.bob
                   (element_delete_ev "C" (VStr "n1")) None 8 _)).
  discriminate.
Defined.

(** ** What a mutation can change *)

Lemma edit_guard_board (σ : State) (socket : Socket) (boardId : string)
    (userData : UserData) (board : Board) :
  edit_guard σ socket boardId = inr (userData, board) →
  boards σ !! boardId = Some board.
Proof.
  unfold edit_guard. destruct (in_board σ socket boardId); [| done].
  destruct (boards σ !! boardId) as [board' |]; [| done]. cbv zeta.
  match goal with |- context [if ?c then _ else _] => destruct c end; [done |].
  by intros [= _ ->].
Qed.

Lemma canvas_action_stamped (board board' : Board) (userId : string)
    (d : CanvasUpdate) (now : Z) :
  canvas_action board userId d now = Some board' →
  ∃ els, board' = stamped board els userId now.
Proof.
  unfold canvas_action.
  destruct (if String.eqb (cu_action d) "add" then cu_element d else None);
    [intros [= <-]; by eexists |].
  destruct (if String.eqb (cu_action d) "update" then cu_element d else None)
    as [element |].
  { destruct (findIndex (has_id (get element "id")) (elements board));
      [intros [= <-]; by eexists | done]. }
  destruct (if String.eqb (cu_action d) "delete" then cu_element d else None);
    [intros [= <-]; by eexists |].
  destruct (if String.eqb (cu_action d) "batch" then cu_elements d else None);
    [intros [= <-]; by eexists | done].
Qed.

Lemma on_mutation_state (σ : State) (socket : Socket) (m : Mutation) (now : Z) :
  (on_mutation σ socket m now).1 = σ
  ∨ ∃ board els,
      boards σ !! mutation_boardId m = Some board
      ∧ (on_mutation σ socket m now).1
        = save σ (mutation_boardId m)
            (stamped board els (socket_userId socket) now).
Proof.
  destruct m as [d | boardId element | boardId element | boardId elementId]; cbn.
  - unfold canvas_update.
    destruct (in_board σ socket (cu_boardId d)); [| by left].
    destruct (boards σ !! cu_boardId d) as [board |] eqn:Hboard; [| by left].
    cbv zeta.
    match goal with |- context [if ?c then _ else _] => destruct c end; [by left |].
    destruct (canvas_action board (socket_userId socket) d now) as [board' |] eqn:Hact;
      [| by left].
    apply canvas_action_stamped in Hact as [els ->].
    right. by exists board, els.
  - unfold element_create.
    destruct (edit_guard σ socket boardId) as [denied | [userData board]] eqn:Hguard;
      [by left |].
    apply edit_guard_board in Hguard.
    destruct element; [| by left]. right. by eexists _, _.
  - unfold element_update.
    destruct (edit_guard σ socket boardId) as [denied | [userData board]] eqn:Hguard;
      [by left |].
    apply edit_guard_board in Hguard.
    destruct element as [element |]; [| by destruct (elements board); left].
    destruct (findIndex (has_id (get element "id")) (elements board)); [| by left].
    right. by eexists _, _.
  - unfold element_delete.
    destruct (edit_guard σ socket boardId) as [denied | [userData board]] eqn:Hguard;
      [by left |].
    apply edit_guard_board in Hguard.
    destruct (existsb (has_id elementId) (elements board)); [| by left].
    right. by eexists _, _.
Qed.

(** X8.  Whatever mutation event arrives and whatever its outcome, the
    handler leaves the presence maps and the rooms alone, changes no board
    but the one the event names, and creates no board.  On that board it
    never touches the access-control fields (owner, collaborators, public
    flag), so nobody's access changes; the document is either untouched
    or saved with [version] and [totalEdits] one higher and
    [lastModified], [lastModifiedBy] set to the clock and the sender. *)
Theorem mutation_frame (σ : State) (socket : Socket) (m : Mutation) (now : Z) :
  let σ' := (on_mutation σ socket m now).1 in
  activeUsers σ' = activeUsers σ
  ∧ boardRooms σ' = boardRooms σ
  ∧ rooms σ' = rooms σ
  ∧ (∀ other, other ≠ mutation_boardId m → boards σ' !! other = boards σ !! other)
  ∧ match boards σ !! mutation_boardId m, boards σ' !! mutation_boardId m with
    | None, None => True
    | Some board, Some board' =>
        acl board' = acl board
        ∧ (∀ userId, hasAccess board' userId = hasAccess board userId)
        ∧ (board' = board
           ∨ (version board' = version board + 1
              ∧ totalEdits board' = totalEdits board + 1
              ∧ lastModified board' = now
              ∧ lastModifiedBy board' = Some (socket_userId socket)))
    | _, _ => False
    end.
Proof.
  cbv zeta.
  destruct (on_mutation_state σ socket m now) as [-> | (board & els & Hboard & ->)].
  - repeat split; try done.
    destruct (boards σ !! mutation_boardId m); [| done].
    repeat split; by left.
  - cbn. repeat split; try done.
    + intros other Hne. by rewrite lookup_insert_ne.
    + rewrite Hboard, lookup_insert_eq. repeat split; try done. by right.
Qed.

(** ** Successful edits *)



Lemma existsb_present (id : val) (els : list obj) :
  ¬ absent id els → existsb (has_id id) els = true.
Proof.
  intros Hpresent. destruct (existsb (has_id id) els) eqn:Hex; [done |].
  exfalso. apply Hpresent. intros el Hel.
  destruct (has_id id el) eqn:Hid; [| done].
  assert (existsb (has_id id) els = true) as Htrue; [| congruence].
  apply existsb_exists. exists el. split; [by apply list_elem_of_In | done].
Qed.

Lemma remove_id_elem (id : val) (els : list obj) (el : obj) :
  el ∈ remove_id id els ↔ el ∈ els ∧ has_id id el = false.
Proof.
  unfold remove_id. rewrite !list_elem_of_In, filter_In.
  by rewrite negb_true_iff.
Qed.

Lemma remove_id_sublist (id : val) (els : list obj) :
  sublist (remove_id id els) els.
Proof.
  induction els as [| el els IH]; cbn; [constructor |].
  destruct (negb (has_id id el)); by constructor.
Qed.

Lemma remove_id_shorter (id : val) (els : list obj) :
  existsb (has_id id) els = true →
  (length (remove_id id els) < length els)%nat.
Proof.
  induction els as [| el els IH]; cbn; [done |].
  destruct (has_id id el); cbn.
  - intros _.
    pose proof (sublist_length _ _ (remove_id_sublist id els)). unfold remove_id in *. lia.
  - intros Hex%IH. unfold remove_id in *. lia.
Qed.

Section editor.
Context (σ : State) (socket : Socket) (boardId : string) (now : Z).
Context (userData : UserData) (board : Board).
Hypothesis Huser : activeUsers σ !! socket_userId socket = Some userData.
Hypothesis Hcurrent : currentBoard userData = Some boardId.
Hypothesis Hboard : boards σ !! boardId = Some board.
Hypothesis Haccess : access_hasAccess (hasAccess board (socket_userId socket)) = true.
Hypothesis Hrole : access_role (hasAccess board (socket_userId socket)) ≠ Some viewer.

Lemma member (b : string) : b = boardId → in_board σ socket b = Some userData.
Proof using Huser Hcurrent.
  intros ->. unfold in_board. rewrite Huser. by rewrite decide_True.
Qed.

Lemma guard_passes : edit_guard σ socket boardId = inr (userData, board).
Proof using Huser Hcurrent Hboard Haccess Hrole.
  unfold edit_guard. rewrite member, Hboard by done. cbv zeta.
  rewrite Haccess. unfold is_viewer. by rewrite bool_decide_eq_false_2.
Qed.


(** X10.  [element-delete] by a member who may edit, for an id that the
    board holds: every element carrying the id is removed (not only the
    first), all the others are kept in their order, and the deletion is
    broadcast once, to the whole room, the sender included. *)
Theorem element_delete_removes_all (elementId : val) :
  ¬ absent elementId (elements board) →
  let '(σ', out) := element_delete σ socket boardId elementId now in
  absent elementId (stored_elements σ' boardId)
  ∧ (∀ el, el ∈ stored_elements σ' boardId
           ↔ el ∈ elements board ∧ has_id elementId el = false)
  ∧ sublist (stored_elements σ' boardId) (elements board)
  ∧ (length (stored_elements σ' boardId) < length (elements board))%nat
  ∧ out = [mkEmission (room σ boardId)
             (Ev_element_deleted elementId (user userData) now)].
Proof using Huser Hcurrent Hboard Haccess Hrole.
  intros Hpresent. unfold element_delete. rewrite guard_passes.
  rewrite existsb_present by done.
  unfold stored_elements, save. cbn [boards set_boards]. rewrite lookup_insert_eq.
  cbn [fmap option_fmap option_map default elements updateLastModified set_elements].
  split; [intros el Hel; by apply remove_id_elem in Hel as [_ ?] |].
  split; [apply remove_id_elem |].
  split; [apply remove_id_sublist |].
  split; [| reflexivity].
  by apply remove_id_shorter, existsb_present.
Qed.


End editor.


Lemma element_delete_removes_all_witness :
  absent (VStr "n1")
    (stored_elements
       (element_delete Workshop.drawn Scenario.bob "B" (VStr "n1") 9).1 "B").
Proof.
  pose proof (element_delete_removes_all Workshop.drawn Scenario.bob "B" 9
                Workshop.bob_on_B Workshop.drawn_board
                eq_refl eq_refl eq_refl eq_refl ltac:(discriminate)
                (VStr "n1")) as H.
  destruct (element_delete Workshop.drawn Scenario.bob "B" (VStr "n1") 9)
    as [σ' out].
  apply H. intros Habs.
  specialize (Habs Scenario.note (list_elem_of_here _ _)).
  discriminate Habs.
Defined.


End MutationFacts.

(** * Collaborators and access *)

Module AccessFacts.
Import Server BoardModel.

Lemma find_listed (userId : string) (cs : list Collaborator) :
  List.find (is_collaborator userId) cs = None ↔ userId ∉ collab_user <$> cs.
Proof.
  induction cs as [| c cs IH]; cbn.
  - split; [intros _; apply not_elem_of_nil | done].
  - unfold is_collaborator at 1. rewrite not_elem_of_cons.
    case_bool_decide as Hc.
    + split; [done | intros [Hne _]; by subst].
    + rewrite IH. split; [by intros ? | by intros [_ ?]].
Qed.

Lemma find_set_role (userId : string) (r : Role) (cs : list Collaborator) :
  List.find (is_collaborator userId) cs ≠ None →
  List.find (is_collaborator userId) (set_role userId r cs)
  = Some (mkCollaborator userId r).
Proof.
  induction cs as [| c cs IH]; cbn; [done |].
  destruct (is_collaborator userId c) eqn:Hc; cbn.
  - intros _. unfold is_collaborator in *. cbn. rewrite Hc.
    apply bool_decide_eq_true in Hc. by rewrite Hc.
  - rewrite Hc. exact IH.
Qed.

Lemma find_set_role_other (userId other : string) (r : Role)
    (cs : list Collaborator) :
  other ≠ userId →
  List.find (is_collaborator other) (set_role userId r cs)
  = List.find (is_collaborator other) cs.
Proof.
  intros Hne. induction cs as [| c cs IH]; cbn; [done |].
  destruct (is_collaborator userId c) eqn:Hc; cbn.
  - apply bool_decide_eq_true in Hc. unfold is_collaborator. cbn.
    by rewrite !bool_decide_eq_false_2 by congruence.
  - by rewrite IH.
Qed.

Lemma listed_set_role (userId : string) (r : Role) (cs : list Collaborator) :
  collab_user <$> set_role userId r cs = collab_user <$> cs.
Proof.
  induction cs as [| c cs IH]; cbn; [done |].
  destruct (is_collaborator userId c); cbn; [done | by rewrite IH].
Qed.

Lemma find_filter_self (userId : string) (cs : list Collaborator) :
  List.find (is_collaborator userId)
    (List.filter (λ c, negb (is_collaborator userId c)) cs) = None.
Proof.
  induction cs as [| c cs IH]; cbn; [done |].
  destruct (is_collaborator userId c) eqn:Hc; cbn; [done |]. by rewrite Hc.
Qed.

Lemma find_filter_other (userId other : string) (cs : list Collaborator) :
  other ≠ userId →
  List.find (is_collaborator other)
    (List.filter (λ c, negb (is_collaborator userId c)) cs)
  = List.find (is_collaborator other) cs.
Proof.
  intros Hne. induction cs as [| c cs IH]; cbn; [done |].
  destruct (is_collaborator userId c) eqn:Hc; cbn.
  - apply bool_decide_eq_true in Hc.
    assert (is_collaborator other c = false) as ->; [| done].
    apply bool_decide_eq_false. congruence.
  - by rewrite IH.
Qed.

Lemma filter_unlisted (userId : string) (cs : list Collaborator) :
  userId ∉ collab_user <$> cs →
  List.filter (λ c, negb (is_collaborator userId c)) cs = cs.
Proof.
  induction cs as [| c cs IH]; cbn; [done |].
  rewrite not_elem_of_cons. intros [Hne Hcs].
  unfold is_collaborator at 1. rewrite bool_decide_eq_false_2 by congruence.
  cbn. by rewrite IH.
Qed.

Lemma find_append {A} (p : A → bool) (l l' : list A) :
  List.find p (l ++ l')
  = match List.find p l with Some x => Some x | None => List.find p l' end.
Proof.
  induction l as [| x l IH]; cbn; [done |]. by destruct (p x).
Qed.

Lemma hasAccess_find (b : Board) (userId : string) :
  hasAccess b userId
  = if decide (board_owner b = userId) then mkAccess true (Some owner)
    else match List.find (is_collaborator userId) (collaborators b) with
         | Some c => mkAccess true (Some (collab_role c))
         | None => if isPublic b then mkAccess true (Some viewer)
                   else mkAccess false None
         end.
Proof. reflexivity. Qed.

Lemma addCollaborator_fields (b : Board) (userId : string) (r : Role) :
  board_owner (addCollaborator b userId r) = board_owner b
  ∧ isPublic (addCollaborator b userId r) = isPublic b.
Proof.
  unfold addCollaborator.
  by destruct (List.find (is_collaborator userId) (collaborators b)).
Qed.

Lemma find_add_other (b : Board) (userId other : string) (r : Role) :
  other ≠ userId →
  List.find (is_collaborator other) (collaborators (addCollaborator b userId r))
  = List.find (is_collaborator other) (collaborators b).
Proof.
  intros Hne. unfold addCollaborator.
  destruct (List.find (is_collaborator userId) (collaborators b)); cbn.
  - by apply find_set_role_other.
  - rewrite find_append.
    destruct (List.find (is_collaborator other) (collaborators b)); [done |].
    cbn. unfold is_collaborator. cbn.
    by rewrite bool_decide_eq_false_2 by congruence.
Qed.

(** X12.  [addCollaborator] for a user who is not the owner: afterwards
    [hasAccess] gives that user access with exactly the role passed,
    whether the user was listed before (the entry is updated) or not (one
    is appended); the access of every other user is as before; a
    collaborator list without repeated users stays without. *)
Theorem addCollaborator_grants (b : Board) (userId : string) (r : Role) :
  userId ≠ board_owner b →
  let b' := addCollaborator b userId r in
  hasAccess b' userId = mkAccess true (Some r)
  ∧ (∀ other, other ≠ userId → hasAccess b' other = hasAccess b other)
  ∧ (NoDup (listed b) → NoDup (listed b'))
  ∧ (userId ∈ listed b → length (collaborators b') = length (collaborators b)).
Proof.
  intros Howner. cbv zeta. unfold addCollaborator.
  destruct (List.find (is_collaborator userId) (collaborators b)) as [existing |] eqn:Hfind.
  - assert (Hsome : List.find (is_collaborator userId) (collaborators b) ≠ None)
      by (by rewrite Hfind).
    split.
    { rewrite hasAccess_find. cbn. rewrite decide_False by done.
      by rewrite find_set_role. }
    split.
    { intros other Hne. rewrite !hasAccess_find. cbn.
      by rewrite find_set_role_other. }
    split.
    { unfold listed. cbn. by rewrite listed_set_role. }
    intros _. cbn. rewrite <- !(length_fmap collab_user). by rewrite listed_set_role.
  - assert (Hun : userId ∉ listed b) by (by apply find_listed).
    split.
    { rewrite hasAccess_find. cbn. rewrite decide_False by done.
      rewrite find_append, Hfind. cbn. unfold is_collaborator. cbn.
      by rewrite bool_decide_eq_true_2. }
    split.
    { intros other Hne. rewrite !hasAccess_find. cbn. rewrite find_append.
      destruct (List.find (is_collaborator other) (collaborators b)); [done |].
      cbn. unfold is_collaborator. cbn.
      by rewrite bool_decide_eq_false_2 by congruence. }
    split.
    { unfold listed. cbn. rewrite fmap_app. cbn. intros Hnd.
      apply NoDup_app. split; [done |]. split; [| apply NoDup_singleton].
      intros y Hy ->%list_elem_of_singleton. done. }
    intros Hin. done.
Qed.

Lemma addCollaborator_grants_witness :
  hasAccess (addCollaborator Scenario.board0 "carol" editor) "carol"
  = mkAccess true (Some editor).
Proof.
  refine (proj1 (addCollaborator_grants Scenario.board0 "carol" editor _)).
  discriminate.
Defined.

(** X13.  [removeCollaborator] for a user who is not the owner removes
    every entry of that user: the user is no longer listed and keeps only
    what a stranger has -- [viewer] on a public board, no access on a
    private one; the access of every other user is as before.  Removing a
    user right after adding it gives back the board as it was, provided
    the user was not listed before. *)
Theorem removeCollaborator_revokes (b : Board) (userId : string) (r : Role) :
  userId ≠ board_owner b →
  let b' := removeCollaborator b userId in
  hasAccess b' userId
  = (if isPublic b then mkAccess true (Some viewer) else mkAccess false None)
  ∧ (∀ other, other ≠ userId → hasAccess b' other = hasAccess b other)
  ∧ (userId ∉ listed b')
  ∧ (∀ other, hasAccess (removeCollaborator (addCollaborator b userId r) userId) other
              = hasAccess b' other)
  ∧ (userId ∉ listed b →
       removeCollaborator (addCollaborator b userId r) userId = b).
Proof.
  intros Howner. cbv zeta.
  split.
  { rewrite hasAccess_find. cbn. rewrite decide_False by done.
    by rewrite find_filter_self. }
  split.
  { intros other Hne. rewrite !hasAccess_find. cbn.
    by rewrite find_filter_other. }
  split.
  { apply find_listed. cbn. apply find_filter_self. }
  split.
  { intros other. rewrite !hasAccess_find.
    unfold removeCollaborator, set_collaborators.
    cbn [board_owner isPublic collaborators].
    destruct (addCollaborator_fields b userId r) as [-> ->].
    destruct (decide (board_owner b = other)) as [Ho | Ho]; [done |].
    destruct (decide (other = userId)) as [-> | Hne].
    - by rewrite !find_filter_self.
    - by rewrite !find_filter_other, find_add_other. }
  intros Hun. unfold addCollaborator.
  rewrite (proj2 (find_listed userId (collaborators b))) by done.
  unfold removeCollaborator, set_collaborators. cbn.
  rewrite List.filter_app, filter_unlisted by done. cbn.
  unfold is_collaborator. cbn. rewrite bool_decide_eq_true_2 by done. cbn.
  rewrite app_nil_r. by destruct b.
Qed.

Lemma removeCollaborator_revokes_witness :
  hasAccess (removeCollaborator Scenario.board0 "bob") "bob" = mkAccess false None.
Proof.
  refine (proj1 (removeCollaborator_revokes Scenario.board0 "bob" viewer _)).
  discriminate.
Defined.

End AccessFacts.

(** * Relayed events *)

Module RelayFacts.
Import Server Relay.

(** X14.  The four ephemeral events ([cursor-move], [tool-change],
    [drawing-start], [drawing-end]).  From a sender whose entry does not
    record the named board the event is dropped without any reply; from a
    sender that is on the board it is relayed once, to the sockets of the
    room other than the sender's.  The board collection is never
    consulted: no role is checked, so a viewer's cursor is relayed like
    anybody's. *)
Theorem ephemeral_relay (σ : State) (socket : Socket) (e : Ephemeral) (now : Z) :
  (board_of σ (socket_userId socket) ≠ Some (ephemeral_boardId e) →
   on_ephemeral σ socket e now = [])
  ∧ (board_of σ (socket_userId socket) = Some (ephemeral_boardId e) →
     ∃ sg, on_ephemeral σ socket e now
           = [mkRelayed (room σ (ephemeral_boardId e) ∖ {[ socket_id socket ]}) sg])
  ∧ (∀ r, r ∈ on_ephemeral σ socket e now →
          (socket_id socket ∉ relay_to r)
          ∧ relay_to r ⊆ room σ (ephemeral_boardId e))
  ∧ (∀ boards', on_ephemeral (set_boards σ boards') socket e now
                = on_ephemeral σ socket e now).
Proof.
  assert (Hshape :
    on_ephemeral σ socket e now = []
    ∧ board_of σ (socket_userId socket) ≠ Some (ephemeral_boardId e)
    ∨ (∃ sg, on_ephemeral σ socket e now
             = [mkRelayed (room σ (ephemeral_boardId e) ∖ {[ socket_id socket ]}) sg])
      ∧ board_of σ (socket_userId socket) = Some (ephemeral_boardId e)).
  { assert (Hin : ∀ boardId,
              in_board σ socket boardId = None
              ∧ board_of σ (socket_userId socket) ≠ Some boardId
              ∨ (∃ userData, in_board σ socket boardId = Some userData)
                ∧ board_of σ (socket_userId socket) = Some boardId).
    { intros boardId. unfold in_board, board_of.
      destruct (activeUsers σ !! socket_userId socket) as [userData |]; cbn;
        [| by left].
      case_decide; [right; split; [by eexists | done] | by left]. }
    destruct e as [boardId x y | boardId tool | boardId tool startPoint | boardId];
      cbn; destruct (Hin boardId) as [[Hnone Hoff] | [[userData Hsome] Hon]].
    all: unfold cursor_move, tool_change, drawing_start, drawing_end;
      rewrite ?Hnone, ?Hsome;
      first [ by left | right; split; [by eexists | done] ]. }
  split; [| split; [| split]].
  - intros Hoff. by destruct Hshape as [[-> _] | [_ Hon]].
  - intros Hon. by destruct Hshape as [[_ Hoff] | [Hsg _]].
  - intros r Hr. destruct Hshape as [[Hnil _] | [[sg Hsg] _]].
    + rewrite Hnil in Hr. by apply elem_of_nil in Hr.
    + rewrite Hsg in Hr. apply list_elem_of_singleton in Hr as ->. cbn.
      split; [| apply subseteq_difference_l; done].
      rewrite elem_of_difference, elem_of_singleton. tauto.
  - intros boards'. by destruct e.
Qed.

(** X15.  [user-removed], from any sender: if the named user has an entry
    and its socket is connected, that socket is sent the event, the user
    is taken out of the tracked set and the socket out of the room of the
    named board, and the entry records no board afterwards -- also when
    it recorded another board, whose tracked set is left as it was.  The
    event is then relayed to the room of the named board without the
    sender.  The handler consults no role and changes no board
    document. *)
Theorem user_removed_untracks (sockets : gmap string Socket) (σ : State)
    (socket : Socket) (userId boardId : string) (now : Z)
    (removedUserData : UserData) (removedUserSocket : Socket) :
  activeUsers σ !! userId = Some removedUserData →
  sockets !! socketId removedUserData = Some removedUserSocket →
  socket_userId removedUserSocket = userId →
  let removed := Sg_user_removed userId boardId (socket_userId socket) now in
  let '(σ', out) := user_removed sockets σ socket userId boardId now in
  board_of σ' userId = None
  ∧ (userId ∉ tracked σ' boardId)
  ∧ (socket_id removedUserSocket ∉ room σ' boardId)
  ∧ (∀ other, other ≠ boardId → tracked σ' other = tracked σ other)
  ∧ boards σ' = boards σ
  ∧ head out = Some (inr (mkRelayed {[ socket_id removedUserSocket ]} removed))
  ∧ last out
    = Some (inr (mkRelayed (room σ' boardId ∖ {[ socket_id socket ]}) removed)).
Proof.
  intros Hentry Hsocket Hid. cbv zeta.
  unfold user_removed. cbv zeta. rewrite Hentry, Hsocket.
  pose proof (PresenceFacts.leave_board_of σ removedUserSocket boardId now userId) as Hof.
  pose proof (λ other,
                PresenceFacts.leave_tracked σ removedUserSocket boardId other now) as Htr.
  pose proof (PresenceFacts.leave_room σ removedUserSocket boardId boardId now) as Hroom.
  pose proof (PresenceFacts.leave_boards σ removedUserSocket boardId now) as Hboards.
  cbv beta in Htr.
  destruct (handleUserLeaveBoard σ removedUserSocket boardId now) as [σ1 leaving].
  cbn [fst] in *.
  split; [by rewrite Hof, decide_True |].
  split.
  { rewrite (Htr boardId), decide_True by done. unfold set_delete.
    rewrite list_elem_of_filter, Hid. by intros [? _]. }
  split.
  { rewrite Hroom, decide_True by done.
    rewrite elem_of_difference, elem_of_singleton. tauto. }
  split; [intros other Hne; by rewrite (Htr other), decide_False |].
  split; [exact Hboards |].
  split; [reflexivity |].
  by rewrite last_app.
Qed.

Lemma user_removed_untracks_witness :
  board_of (user_removed Workshop.sockets Scenario.joined Scenario.carol
              "alice" "B" 9).1 "alice" = None.
Proof.
  pose proof (user_removed_untracks Workshop.sockets Scenario.joined Scenario.carol
                "alice" "B" 9
                (mkUserData "socket-alice" (mkUserInfo "alice" "Alice") 1
                            (Some "B") (Some owner))
                Scenario.alice eq_refl eq_refl eq_refl) as H.
  cbv zeta in H.
  destruct (user_removed Workshop.sockets Scenario.joined Scenario.carol
              "alice" "B" 9) as [σ' out].
  apply H.
Defined.

End RelayFacts.

(** * The history of [CanvasPageFixed.jsx] beyond the first fifty snapshots *)

Module HistoryFacts.
Import Canvas CanvasFacts.






(** ** Runs of any length *)





(** ** Undo and redo against each other *)

(** X18.  In a state whose pointer addresses a snapshot that the canvas
    shows: when there is an earlier snapshot, [undo] followed by [redo]
    shows the same canvas again with the pointer where it was; when there
    is a later one, so does [redo] followed by [undo].  Neither touches
    the history. *)
Theorem undo_redo_inverse (st : State) :
  synced st →
  (0 < historyIndex st →
   ∃ undone redone,
     undo st = Some undone ∧ redo undone = Some redone
     ∧ shown redone = shown st
     ∧ historyIndex redone = historyIndex st
     ∧ history redone = history st)
  ∧ (historyIndex st < Z.of_nat (length (history st)) - 1 →
     ∃ redone undone,
       redo st = Some redone ∧ undo redone = Some undone
       ∧ shown undone = shown st
       ∧ historyIndex undone = historyIndex st
       ∧ history undone = history st).
Proof.
  intros Hs. pose proof Hs as (_ & Hrange & Hshown). split.
  - intros Hpos.
    destruct (undo_synced st Hs) as (undone & Hundo & Hsu & Hhu & Hvu & Hiu).
    destruct (redo_synced undone Hsu) as (redone & Hredo & Hsr & Hhr & Hvr & Hir).
    exists undone, redone. split; [done |]. split; [done |].
    assert (Hidx : historyIndex redone = historyIndex st) by (rewrite Hhu in Hir; lia).
    split; [| split; [done | congruence]].
    destruct Hsr as (_ & _ & Hlook). rewrite Hidx, Hvr, Hvu, Hshown in Hlook.
    by injection Hlook.
  - intros Hless.
    destruct (redo_synced st Hs) as (redone & Hredo & Hsr & Hhr & Hvr & Hir).
    destruct (undo_synced redone Hsr) as (undone & Hundo & Hsu & Hhu & Hvu & Hiu).
    exists redone, undone. split; [done |]. split; [done |].
    assert (Hidx : historyIndex undone = historyIndex st) by lia.
    split; [| split; [done | congruence]].
    destruct Hsu as (_ & _ & Hlook). rewrite Hidx, Hvu, Hvr, Hshown in Hlook.
    by injection Hlook.
Qed.

Lemma undo_redo_inverse_witness :
  ∃ undone redone,
    undo (mkState [Scenario.note; Scenario.arrow] [1%nat] [[0%nat]; [1%nat]] 1) = Some undone
    ∧ redo undone = Some redone
    ∧ shown redone = shown (mkState [Scenario.note; Scenario.arrow] [1%nat] [[0%nat]; [1%nat]] 1).
Proof.
  assert (Hs : synced (mkState [Scenario.note; Scenario.arrow] [1%nat] [[0%nat]; [1%nat]] 1)).
  { split; [| split].
    - repeat constructor.
    - cbn [historyIndex history length]. lia.
    - reflexivity. }
  destruct (proj1 (undo_redo_inverse _ Hs))
    as (undone & redone & Hundo & Hredo & Hshown & _).
  - cbn [historyIndex]. lia.
  - by exists undone, redone.
Defined.

(** X19.  [undo] in [CanvasPageFixed.jsx] puts a copy on the canvas: every
    object of the restored array is new, so none is an object of the
    store as it was and none belongs to a snapshot of the history; the
    objects that existed are unchanged; the restored array has the
    content of the snapshot before the pointer.  [undo] in the
    [useCanvasState] hook instead puts the objects of that snapshot on
    the canvas, in a store it leaves as it is. *)
Theorem undo_restores_copy (st : State) :
  synced st →
  0 < historyIndex st →
  (∃ undone snapshot,
     undo st = Some undone
     ∧ history st !! Z.to_nat (historyIndex st - 1) = Some snapshot
     ∧ contents (objects undone) (elements undone)
       = json <$> contents (objects st) snapshot
     ∧ (∀ l, l ∈ elements undone →
          (length (objects st) ≤ l)%nat
          ∧ ∀ a, a ∈ history undone → l ∉ a)
     ∧ take (length (objects st)) (objects undone) = objects st)
  ∧ (∃ undone snapshot,
       CanvasHook.undo st = Some undone
       ∧ history st !! Z.to_nat (historyIndex st - 1) = Some snapshot
       ∧ elements undone = snapshot
       ∧ objects undone = objects st).
Proof.
  intros (Hall & Hrange & _) Hpos.
  destruct (lookup_lt_is_Some_2 (history st) (Z.to_nat (historyIndex st - 1)))
    as [snapshot Hsnap]; [lia |].
  split.
  - exists (mkState (deep_copy (objects st) snapshot).1
                    (deep_copy (objects st) snapshot).2 (history st)
                    (historyIndex st - 1)), snapshot.
    split.
    { unfold undo. rewrite (proj2 (Z.leb_gt _ _)) by lia. cbv zeta. by rewrite Hsnap. }
    split; [done |]. cbn [objects elements history].
    split; [apply deep_copy_contents |].
    split; [| apply deep_copy_extends].
    intros l Hl. apply deep_copy_fresh in Hl as [Hfresh _].
    split; [done |]. intros a Ha Hin.
    rewrite Forall_forall in Hall. specialize (Hall a Ha).
    unfold allocated in Hall. rewrite Forall_forall in Hall.
    specialize (Hall l Hin). lia.
  - exists (mkState (objects st) snapshot (history st) (historyIndex st - 1)), snapshot.
    split; [| done].
    unfold CanvasHook.undo. rewrite Z.gtb_ltb, (proj2 (Z.ltb_lt _ _)) by lia.
    cbv zeta. by rewrite Hsnap.
Qed.

Lemma undo_restores_copy_witness :
  ∃ undone,
    undo (mkState [Scenario.note; Scenario.arrow] [1%nat] [[0%nat]; [1%nat]] 1) = Some undone
    ∧ ∀ l, l ∈ elements undone → (2 ≤ l)%nat.
Proof.
  assert (Hs : synced (mkState [Scenario.note; Scenario.arrow] [1%nat] [[0%nat]; [1%nat]] 1)).
  { split; [| split].
    - repeat constructor.
    - cbn [historyIndex history length]. lia.
    - reflexivity. }
  destruct (proj1 (undo_restores_copy _ Hs ltac:(cbn [historyIndex]; lia)))
    as (undone & snapshot & Hundo & _ & _ & Hfresh & _).
  exists undone. split; [exact Hundo |]. intros l Hl. by apply Hfresh.
Defined.

(** ** Remote events and the local history *)




End HistoryFacts.

(** * Properties of the pointer gestures *)

Module GestureFacts.
Import Geometry Interaction GeometryFacts.
Local Open Scope Q_scope.

(** ** Resizing *)






(** ** Resize handles *)




(** ** The eraser *)

Lemma filter_shorter {A} (p : A → bool) (l : list A) (a : A) :
  a ∈ l → p a = false → (length (List.filter p l) < length l)%nat.
Proof.
  induction l as [| b l IH]; [by intros ?%elem_of_nil |].
  intros [-> | Hin]%elem_of_cons Ha; cbn.
  - rewrite Ha. pose proof (List.filter_length_le p l). lia.
  - specialize (IH Hin Ha). destruct (p b); cbn; lia.
Qed.

Lemma filter_is_sublist {A} (p : A → bool) (l : list A) :
  sublist (List.filter p l) l.
Proof.
  induction l as [| b l IH]; cbn; [constructor |].
  destruct (p b); by constructor.
Qed.

(** X24.  The eraser of the hook.  When the pointer hits something, the
    top-most element hit is chosen and every element carrying its id is
    removed; the others stay, in their order; an element found at the
    same position afterwards is one that was there before, with another
    id.  When the pointer hits nothing, nothing happens. *)
Theorem erase_removes_topmost (elements : list Element) (px py : Q) :
  match HookInteraction.erase elements px py with
  | Some newElements =>
      ∃ erased,
        findElementAtPosition elements px py = Some erased
        ∧ (∀ el, el ∈ newElements ↔ el ∈ elements ∧ id el ≠ id erased)
        ∧ sublist newElements elements
        ∧ (length newElements < length elements)%nat
        ∧ (∀ below, findElementAtPosition newElements px py = Some below →
             id below ≠ id erased ∧ below ∈ elements ∧ hits px py below = true)
  | None => ∀ el, el ∈ elements → hits px py el = false
  end.
Proof.
  unfold HookInteraction.erase, findElementAtPosition.
  pose proof (find_rev_last (hits px py) elements) as Hfind.
  destruct (List.find (hits px py) (rev elements)) as [erased |]; [| exact Hfind].
  destruct Hfind as (i & Hi & Hhit & _).
  assert (Hin : erased ∈ elements) by (by eapply list_elem_of_lookup_2).
  assert (Hmem : ∀ el,
            el ∈ List.filter (λ el, negb (bool_decide (id el = id erased))) elements
            ↔ el ∈ elements ∧ id el ≠ id erased).
  { intros el. rewrite !list_elem_of_In, filter_In, negb_true_iff.
    by rewrite bool_decide_eq_false. }
  exists erased. split; [done |]. split; [exact Hmem |].
  split; [apply filter_is_sublist |].
  split.
  { apply (filter_shorter _ _ erased); [done |].
    by rewrite negb_false_iff, bool_decide_eq_true. }
  intros below Hbelow. apply find_some in Hbelow as [Hb Hhits].
  apply in_rev, list_elem_of_In, Hmem in Hb as [Hb Hid]. done.
Qed.

(** ** Strokes and lines against hit testing *)

Lemma find_top (old : list Element) (el : Element) (px py : Q) :
  findElementAtPosition (old ++ [el]) px py
  = if hits px py el then Some el else findElementAtPosition old px py.
Proof.
  unfold findElementAtPosition. by rewrite rev_app_distr.
Qed.

Lemma short_path_not_hit (el : Element) (px py : Q) :
  type el = freehand → (length (points el) ≤ 1)%nat → hits px py el = false.
Proof.
  intros Hty Hlen. unfold hits. rewrite Hty.
  destruct (points el) as [| p1 [| p2 rest]]; [done | done |].
  cbn in Hlen. lia.
Qed.

(** X25.  A freehand element whose path has fewer than two points is hit
    at no position.  The dot that a pen mouse-down puts on the canvas is
    such an element: although it is the top-most element, hit testing
    gives at every position what it gave before the dot was there. *)
Theorem pen_dot_not_hit (page : Page) (surfaceRect : Rect) (e : MouseEvent)
    (now : Z) :
  activeTool page = tool_pen →
  (∀ px py,
     findElementAtPosition (elements (startDrawingSurface page surfaceRect e now))
                           px py
     = findElementAtPosition (elements page) px py)
  ∧ (∀ el px py, type el = freehand → (length (points el) ≤ 1)%nat →
       hits px py el = false).
Proof.
  intros Htool. split; [| intros el px py; apply short_path_not_hit].
  intros px py. unfold startDrawingSurface. rewrite Htool. cbn [elements].
  rewrite find_top. by rewrite short_path_not_hit.
Qed.

Lemma pen_dot_not_hit_witness :
  findElementAtPosition
    (elements (startDrawingSurface Scenario.pen_page Scenario.surface
                 Scenario.pen_down 7)) 0 0
  = None.
Proof.
  rewrite (proj1 (pen_dot_not_hit Scenario.pen_page Scenario.surface
                    Scenario.pen_down 7 eq_refl)).
  reflexivity.
Defined.

(** ** Dragging *)



(** ** Drawing a line *)

Lemma or_one_pos (d : Q) : 0 <= d → 0 < or_one d.
Proof.
  intros Hd. unfold or_one. destruct (Qeq_bool d 0) eqn:E; [reflexivity |].
  apply Qeq_bool_neq in E. lra.
Qed.

Lemma Math_abs_nonneg (a : Q) : 0 <= Math_abs a.
Proof.
  unfold Math_abs. destruct (Qle_bool 0 a) eqn:E.
  - by apply Qle_bool_iff.
  - assert (¬ 0 <= a) by (intros H%Qle_bool_iff; congruence). lra.
Qed.

Lemma map_last (f : Element → Element) (now : Z) (old : list Element)
    (el : Element) :
  (∀ el, el ∈ old → id el ≠ now) → id el = now →
  (λ el, if decide (id el = now) then f el else el) <$> (old ++ [el])
  = old ++ [f el].
Proof.
  intros Hfresh Hid. rewrite fmap_app. cbn. rewrite decide_True by done. f_equal.
  induction old as [| a old IH]; [done |]. cbn.
  rewrite decide_False by (apply Hfresh, list_elem_of_here). f_equal.
  apply IH. intros b Hb. by apply Hfresh, list_elem_of_further.
Qed.

(** One mouse move while a line is being drawn and nothing is resized. *)
Lemma line_move (v : View) (surfaceRect : Rect) (e : MouseEvent) (now : Z)
    (old : list Element) (el : Element) :
  resizing v = None →
  activeTool (page v) = tool_line ∨ activeTool (page v) = tool_arrow →
  drawingTempId (page v) = Some now →
  now ≠ 0%Z →
  elements (page v) = old ++ [el] →
  id el = now →
  (∀ el, el ∈ old → id el ≠ now) →
  handleMouseMove v surfaceRect e
  = set_elements v
      (old ++ [stretch (canvasPoint (scale (page v)) surfaceRect e) el]).
Proof.
  intros Hres Htool Htemp Hnow Hels Hid Hfresh.
  unfold handleMouseMove, handleElementResize, handleLineDrawing.
  rewrite Hres, Htemp. cbv zeta.
  destruct Htool as [-> | ->]; rewrite decide_False by done; cbn [fst snd];
    by rewrite Hels, map_last.
Qed.

Lemma line_moves (surfaceRect : Rect) (now : Z) (old : list Element)
    (moves : list MouseEvent) :
  ∀ (v : View) (el : Element),
    resizing v = None →
    activeTool (page v) = tool_line ∨ activeTool (page v) = tool_arrow →
    drawingTempId (page v) = Some now →
    now ≠ 0%Z →
    elements (page v) = old ++ [el] →
    id el = now →
    (∀ el, el ∈ old → id el ≠ now) →
    foldl (λ v e, handleMouseMove v surfaceRect e) v moves
    = set_elements v
        (old ++ [foldl (λ el e, stretch (canvasPoint (scale (page v)) surfaceRect e) el)
                       el moves]).
Proof.
  induction moves as [| e moves IH];
    intros v el Hres Htool Htemp Hnow Hels Hid Hfresh.
  - cbn. rewrite <- Hels. by destruct v as [[] ? ? ? ?].
  - cbn [foldl]. rewrite (line_move v surfaceRect e now old el) by done.
    rewrite (IH _ (stretch (canvasPoint (scale (page v)) surfaceRect e) el));
      try done.
Qed.

Lemma stretches_origin (f : MouseEvent → Point) (moves : list MouseEvent) :
  ∀ el, let el' := foldl (λ el e, stretch (f e) el) el moves in
        x el' = x el ∧ y el' = y el ∧ type el' = type el ∧ id el' = id el.
Proof.
  induction moves as [| e moves IH]; intros el; cbv zeta; [done |].
  cbn [foldl]. destruct (IH (stretch (f e) el)) as (-> & -> & -> & ->). done.
Qed.

Lemma sq_dist_self (p : Point) : sq_dist p p == 0.
Proof. unfold sq_dist. ring. Qed.

(** X27.  A line or an arrow drawn in [CanvasPageFixed.jsx]: mouse down
    with the tool, then mouse moves, nothing being resized.  The element
    starts where the mouse went down and ends where the last move was,
    whatever the moves in between; its width and height are positive.
    Hit testing at any point of the segment between the two ends finds
    this very element, which lies on top of all the others. *)
Theorem drawn_line_hit (v : View) (surfaceRect : Rect) (now : Z)
    (first : MouseEvent) (moves : list MouseEvent) (final : MouseEvent) (t : Q) :
  activeTool (page v) = tool_line ∨ activeTool (page v) = tool_arrow →
  resizing v = None →
  now ≠ 0%Z →
  (∀ el, el ∈ elements (page v) → id el ≠ now) →
  0 < scale (page v) →
  0 <= t → t <= 1 →
  let a := canvasPoint (scale (page v)) surfaceRect first in
  let b := canvasPoint (scale (page v)) surfaceRect final in
  let p := along a b t in
  ∃ el,
    elements (page (drawLine v surfaceRect now first (moves ++ [final])))
    = elements (page v) ++ [el]
    ∧ findElementAtPosition
        (elements (page (drawLine v surfaceRect now first (moves ++ [final]))))
        p.1 p.2 = Some el
    ∧ id el = now
    ∧ x el = a.1 ∧ y el = a.2 ∧ x2 el = Some b.1 ∧ y2 el = Some b.2
    ∧ 0 < width el ∧ 0 < height el.
Proof.
  intros Htool Hres Hnow Hfresh _ Ht0 Ht1. cbv zeta.
  set (a := canvasPoint (scale (page v)) surfaceRect first).
  set (b := canvasPoint (scale (page v)) surfaceRect final).
  set (ty := match activeTool (page v) with tool_line => line | _ => arrow end).
  set (el0 := mkElement now ty a.1 a.2 1 1 (Some a.1) (Some a.2) []).
  set (v0 := mkView (startDrawingSurface (page v) surfaceRect first now)
                    (selectedElement v) (isDragging v) (resizing v) (dragOffset v)).
  assert (Hpage0 : page v0 = mkPage (elements (page v) ++ [el0]) (activeTool (page v))
                                    (Some now) (scale (page v))).
  { unfold v0, startDrawingSurface. cbn [page].
    by destruct Htool as [Heq | Heq]; rewrite Heq; unfold el0, ty; rewrite ?Heq. }
  set (mid := foldl (λ el e, stretch (canvasPoint (scale (page v)) surfaceRect e) el)
                    el0 moves).
  assert (Hrun : drawLine v surfaceRect now first (moves ++ [final])
                 = set_elements v0 (elements (page v) ++ [stretch b mid])).
  { unfold drawLine. fold v0.
    rewrite (line_moves surfaceRect now (elements (page v)) (moves ++ [final]) v0 el0);
      rewrite ?Hpage0; try done.
    by rewrite foldl_app. }
  destruct (stretches_origin (canvasPoint (scale (page v)) surfaceRect) moves el0)
    as (Hx & Hy & Hty & Hid).
  fold mid in Hx, Hy, Hty, Hid.
  exists (stretch b mid). rewrite Hrun. cbn [set_elements page elements].
  split; [done |].
  assert (Hhit : hits (along a b t).1 (along a b t).2 (stretch b mid) = true).
  { unfold hits. cbn [stretch type x2 y2 x y]. rewrite Hty, Hx, Hy.
    assert (Hnear : near (distanceToLineSq (along a b t).1 (along a b t).2
                            a.1 a.2 b.1 b.2) = true).
    { apply near_iff. exists t. split; [done |]. split; [done |].
      destruct a as [a1 a2], b as [b1 b2].
      change (along (a1, a2) (b1, b2) t).1 with (a1 + t * (b1 - a1)).
      change (along (a1, a2) (b1, b2) t).2 with (a2 + t * (b2 - a2)).
      pose proof (sq_dist_self (along (a1, a2) (b1, b2) t)) as Hself.
      unfold along in Hself |- *. cbn [fst snd] in Hself |- *. lra. }
    unfold el0, ty. cbn [type x y].
    by destruct Htool as [-> | ->]. }
  split; [by rewrite find_top, Hhit |].
  cbn [stretch id x y x2 y2 width height].
  repeat split; try done; apply or_one_pos, Math_abs_nonneg.
Qed.

Lemma drawn_line_hit_witness :
  ∃ el,
    findElementAtPosition
      (elements (page (drawLine
                         (mkView (mkPage [] tool_line None 1) None false None (0, 0))
                         Scenario.surface 7 (mkMouse 0 0) [mkMouse 5 9; mkMouse 30 40])))
      15 20
    = Some el
    ∧ id el = 7%Z.
Proof.
  destruct (drawn_line_hit
              (mkView (mkPage [] tool_line None 1) None false None (0, 0))
              Scenario.surface 7 (mkMouse 0 0) [mkMouse 5 9] (mkMouse 30 40) (1 # 2))
    as (el & _ & Hfind & Hid & _).
  - by left.
  - reflexivity.
  - discriminate.
  - intros el Hel. by apply elem_of_nil in Hel.
  - reflexivity.
  - discriminate.
  - discriminate.
  - exists el. split; [| exact Hid].
    rewrite <- Hfind. reflexivity.
Defined.

(** ** The points of a freehand stroke *)











End GestureFacts.
